(** * v2ray-core: routing rule construction and generated transport getters

    A shallow embedding of [app/router/config.go] (package [router]) and of
    the generated accessors of the transport configuration messages
    (package [internet]), with the properties their specification states.

    Conventions of the embedding:
    - Go integers are [Z]; a byte is a [Z] in [0, 255], a [uint32] a [Z]
      in [0, 2^32); [int64] arithmetic is wrapped explicitly.
    - a slice is a [list]; the nil slice and the empty slice are both [[]]
      (the code only ever asks for [len]);
    - a pointer that may be nil is an [option];
    - a run-time panic (index out of range) is the [None] of an [option];
    - a Go pair [(value, error)] of which exactly one side is meaningful is
      a [result]. *)

From Stdlib Require Import ZArith String List Lia Bool.
From stdpp Require Import base tactics option list sorting strings gmap.

Local Open Scope Z_scope.

(** ** Results of fallible functions *)

Inductive result (E A : Type) : Type :=
| Ok (a : A)
| Err (e : E).
Arguments Ok {E A} a.
Arguments Err {E A} e.

(** The error monad: [x ← r; k] stops at the first [Err]. *)
#[global] Instance result_ret {E} : MRet (result E) := fun _ a => Ok a.
#[global] Instance result_bind {E} : MBind (result E) := fun _ _ k r =>
  match r with
  | Ok a => k a
  | Err e => Err e
  end.

Module Router.

(** ** CIDR entries and [CIDRList] *)

(** The [CIDR] message: address bytes and prefix length. *)
Record CIDR : Type := mkCIDR {
  Ip : list Z;
  Prefix : Z
}.

(** [type CIDRList []*CIDR]; the elements of a decoded list are never nil. *)
Abbreviation CIDRList := (list CIDR).

(** Indexing a slice with a Go [int]: panics outside [0, len). *)
Definition index {A} (l : list A) (i : Z) : option A :=
  if i <? 0 then None else l !! Z.to_nat i.

(** [func (l *CIDRList) Len() int] *)
Definition Len (l : CIDRList) : Z := Z.of_nat (length l).

(** How the byte loop of [Less] ends. *)
Inductive loop_exit : Type :=
| Return (b : bool)
| Fallthrough
| Panic.

(** [for k := 0; k < len(ci.Ip); k++ { ... }] started at [k] with [n]
    iterations left, over [a = ci.Ip] and [b = cj.Ip]. *)
Fixpoint Less_loop (n : nat) (k : Z) (a b : list Z) : loop_exit :=
  match n with
  | O => Fallthrough
  | S n' =>
      match index a k, index b k with
      | Some x, Some y =>
          if x <? y then Return true
          else if x >? y then Return false
          else Less_loop n' (k + 1) a b
      | _, _ => Panic
      end
  end.

(** The body of [Less] once [ci] and [cj] are read. *)
Definition cidr_less (ci cj : CIDR) : option bool :=
  if Z.of_nat (length (Ip ci)) <? Z.of_nat (length (Ip cj)) then Some true
  else if Z.of_nat (length (Ip ci)) >? Z.of_nat (length (Ip cj)) then Some false
  else
    match Less_loop (length (Ip ci)) 0 (Ip ci) (Ip cj) with
    | Return b => Some b
    | Panic => None
    | Fallthrough => Some (Prefix ci <? Prefix cj)
    end.

(** [func (l *CIDRList) Less(i int, j int) bool] *)
Definition Less (l : CIDRList) (i j : Z) : option bool :=
  match index l i with
  | None => None
  | Some ci =>
      match index l j with
      | None => None
      | Some cj => cidr_less ci cj
      end
  end.

(** [func (l *CIDRList) Swap(i int, j int)] *)
Definition Swap (l : CIDRList) (i j : Z) : option CIDRList :=
  match index l i, index l j with
  | Some ci, Some cj =>
      Some (<[Z.to_nat j := ci]> (<[Z.to_nat i := cj]> l))
  | _, _ => None
  end.

(** *** The order of the specification *)

(** Lexicographic comparison of two byte strings: they agree on a common
    prefix and the first differing byte is smaller on the left. *)
Definition lex_lt (a b : list Z) : Prop :=
  exists p x y a' b', a = p ++ x :: a' /\ b = p ++ y :: b' /\ x < y.

(** Entry [ci] precedes entry [cj]: shorter address first, then the bytes
    lexicographically, then the smaller prefix length. *)
Definition precedes (ci cj : CIDR) : Prop :=
  (length (Ip ci) < length (Ip cj))%nat \/
  (length (Ip ci) = length (Ip cj) /\
   (lex_lt (Ip ci) (Ip cj) \/ (Ip ci = Ip cj /\ Prefix ci < Prefix cj))).

(** The non-strict order: precedes or has the same length, bytes and prefix. *)
Definition Leq (ci cj : CIDR) : Prop :=
  cidr_less ci cj = Some true \/
  (length (Ip ci) = length (Ip cj) /\ Ip ci = Ip cj /\ Prefix ci = Prefix cj).


(** An insertion sort driven by [cidr_less], one procedure that meets the
    contract of the standard sort on a [CIDRList]. *)
Fixpoint insert_sorted (c : CIDR) (l : CIDRList) : CIDRList :=
  match l with
  | [] => [c]
  | d :: l' =>
      match cidr_less d c with
      | Some true => d :: insert_sorted c l'
      | _ => c :: l
      end
  end.

Fixpoint insertion_sort (l : CIDRList) : CIDRList :=
  match l with
  | [] => []
  | c :: l' => insert_sorted c (insertion_sort l')
  end.

(** A small list: 10.0.0.0/8, 10.0.0.0/16 and the IPv6 entry ::/0. *)
Definition sample_cidrs : CIDRList :=
  [ mkCIDR [10; 0; 0; 0] 8;
    mkCIDR [10; 0; 0; 0] 16;
    mkCIDR [0; 0; 0; 0; 0; 0; 0; 0; 0; 0; 0; 0; 0; 0; 0; 0] 0 ].

(** ** Errors *)

(** The error values this file builds, kept as terms: [newError(msg)],
    [e.Base(inner)], [e.AtWarning()], and errors made by other packages. *)
Inductive error : Type :=
| External (msg : string)
| newError (msg : string)
| Base (e inner : error)
| AtWarning (e : error).

(** ** Messages consumed by [BuildCondition] *)

Module PortRange.
Record t : Type := mk { From : Z; To : Z }.
End PortRange.

Module PortList.
Record t : Type := mk { Range : list PortRange.t }.
End PortList.

Module NetworkList.
Record t : Type := mk { Network : list Z }.
End NetworkList.

Module GeoIP.
Record t : Type := mk { CountryCode : string; Cidr : CIDRList }.
End GeoIP.

(** The matcher constructors of the package, defined outside this file.
    [DomainEntry] is the element type of the [Domain] field and
    [CustomGeoIPEntry] that of [CustomGeoip]; [Condition] is the interface
    every matcher implements.  Three constructors can fail. *)
Class Matchers : Type := {
  DomainEntry : Type;
  CustomGeoIPEntry : Type;
  Condition : Type;
  NewDomainMatcher : list DomainEntry -> result error Condition;
  NewUserMatcher : list string -> Condition;
  NewInboundTagMatcher : list string -> Condition;
  NewPortMatcher : PortList.t -> Condition;
  NewNetworkMatcher : list Z -> Condition;
  NewMultiGeoIPMatcher : list GeoIP.t -> bool -> result error Condition;
  NewCustomGeoIPMatcher : list CustomGeoIPEntry -> bool -> Condition;
  NewProtocolMatcher : list string -> Condition;
  NewAttributeMatcher : string -> result error Condition;
  NewApplicationMatcher : list string -> Condition
}.

(** The fields of the [RoutingRule] message that [BuildCondition] reads; the
    target of the rule (its tag or balancing tag) plays no part in it. *)
Module RoutingRule.
Record t `{Matchers} : Type := mk {
  Domain : list DomainEntry;
  UserEmail : list string;
  InboundTag : list string;
  PortList : option PortList.t;
  PortRange : option PortRange.t;
  Networks : list Z;
  NetworkList : option NetworkList.t;
  Geoip : list GeoIP.t;
  Cidr : CIDRList;
  SourceGeoip : list GeoIP.t;
  SourceCidr : CIDRList;
  CustomGeoip : list CustomGeoIPEntry;
  Protocol : list string;
  Attributes : string;
  Application : list string
}.
End RoutingRule.

(** Go's [len] on a slice and on a string. *)
Definition len {A} (l : list A) : Z := Z.of_nat (length l).
Definition strlen (s : string) : Z := Z.of_nat (String.length s).

Section Conditions.
Context `{Matchers}.

(** Modelled from the spec: the composite AND-chain of condition.go, which
    is not part of this file; an ordered sequence of conditions to which
    [Add] appends at the end. *)
Definition ConditionChan : Type := list Condition.
Definition NewConditionChan : ConditionChan := [].
Definition Add (v : ConditionChan) (cond : Condition) : ConditionChan :=
  v ++ [cond].
Definition ConditionChan_Len (v : ConditionChan) : Z := len v.

(** The blocks of [BuildCondition], one definition for each [if] statement
    of the function, in the order of the source.  A block takes the chain
    built so far; the four blocks that call a fallible constructor return
    early with its error. *)

(** [if len(rr.Domain) > 0 { ... }] *)
Definition add_domain (rr : RoutingRule.t) (conds : ConditionChan)
  : result error ConditionChan :=
  if len (RoutingRule.Domain rr) >? 0 then
    match NewDomainMatcher (RoutingRule.Domain rr) with
    | Err err => Err (Base (newError "failed to build domain condition") err)
    | Ok matcher => Ok (Add conds matcher)
    end
  else Ok conds.

(** [if len(rr.UserEmail) > 0 { ... }] *)
Definition add_user (rr : RoutingRule.t) (conds : ConditionChan)
  : ConditionChan :=
  if len (RoutingRule.UserEmail rr) >? 0
  then Add conds (NewUserMatcher (RoutingRule.UserEmail rr))
  else conds.

(** [if len(rr.InboundTag) > 0 { ... }] *)
Definition add_inbound_tag (rr : RoutingRule.t) (conds : ConditionChan)
  : ConditionChan :=
  if len (RoutingRule.InboundTag rr) >? 0
  then Add conds (NewInboundTagMatcher (RoutingRule.InboundTag rr))
  else conds.

(** [if rr.PortList != nil { ... } else if rr.PortRange != nil { ... }] *)
Definition add_port (rr : RoutingRule.t) (conds : ConditionChan)
  : ConditionChan :=
  match RoutingRule.PortList rr with
  | Some pl => Add conds (NewPortMatcher pl)
  | None =>
      match RoutingRule.PortRange rr with
      | Some r => Add conds (NewPortMatcher (PortList.mk [r]))
      | None => conds
      end
  end.

(** [if len(rr.Networks) > 0 { ... } else if rr.NetworkList != nil { ... }] *)
Definition add_network (rr : RoutingRule.t) (conds : ConditionChan)
  : ConditionChan :=
  if len (RoutingRule.Networks rr) >? 0
  then Add conds (NewNetworkMatcher (RoutingRule.Networks rr))
  else
    match RoutingRule.NetworkList rr with
    | Some nl => Add conds (NewNetworkMatcher (NetworkList.Network nl))
    | None => conds
    end.

(** [if len(rr.Geoip) > 0 { ... } else if len(rr.Cidr) > 0 { ... }] *)
Definition add_geoip (rr : RoutingRule.t) (conds : ConditionChan)
  : result error ConditionChan :=
  if len (RoutingRule.Geoip rr) >? 0 then
    cond ← NewMultiGeoIPMatcher (RoutingRule.Geoip rr) false;
    Ok (Add conds cond)
  else if len (RoutingRule.Cidr rr) >? 0 then
    cond ← NewMultiGeoIPMatcher
             [GeoIP.mk EmptyString (RoutingRule.Cidr rr)] false;
    Ok (Add conds cond)
  else Ok conds.

(** [if len(rr.SourceGeoip) > 0 { ... } else if len(rr.SourceCidr) > 0 { ... }] *)
Definition add_source_geoip (rr : RoutingRule.t) (conds : ConditionChan)
  : result error ConditionChan :=
  if len (RoutingRule.SourceGeoip rr) >? 0 then
    cond ← NewMultiGeoIPMatcher (RoutingRule.SourceGeoip rr) true;
    Ok (Add conds cond)
  else if len (RoutingRule.SourceCidr rr) >? 0 then
    cond ← NewMultiGeoIPMatcher
             [GeoIP.mk EmptyString (RoutingRule.SourceCidr rr)] true;
    Ok (Add conds cond)
  else Ok conds.

(** [if len(rr.CustomGeoip) > 0 { ... }] *)
Definition add_custom_geoip (rr : RoutingRule.t) (conds : ConditionChan)
  : ConditionChan :=
  if len (RoutingRule.CustomGeoip rr) >? 0
  then Add conds (NewCustomGeoIPMatcher (RoutingRule.CustomGeoip rr) false)
  else conds.

(** [if len(rr.Protocol) > 0 { ... }] *)
Definition add_protocol (rr : RoutingRule.t) (conds : ConditionChan)
  : ConditionChan :=
  if len (RoutingRule.Protocol rr) >? 0
  then Add conds (NewProtocolMatcher (RoutingRule.Protocol rr))
  else conds.

(** [if len(rr.Attributes) > 0 { ... }] *)
Definition add_attributes (rr : RoutingRule.t) (conds : ConditionChan)
  : result error ConditionChan :=
  if strlen (RoutingRule.Attributes rr) >? 0 then
    cond ← NewAttributeMatcher (RoutingRule.Attributes rr);
    Ok (Add conds cond)
  else Ok conds.

(** [if len(rr.Application) > 0 { ... }] *)
Definition add_application (rr : RoutingRule.t) (conds : ConditionChan)
  : ConditionChan :=
  if len (RoutingRule.Application rr) >? 0
  then Add conds (NewApplicationMatcher (RoutingRule.Application rr))
  else conds.

(** [func (rr *RoutingRule) BuildCondition() (Condition, error)] *)
Definition BuildCondition (rr : RoutingRule.t) : result error ConditionChan :=
  let conds := NewConditionChan in
  conds ← add_domain rr conds;
  let conds := add_user rr conds in
  let conds := add_inbound_tag rr conds in
  let conds := add_port rr conds in
  let conds := add_network rr conds in
  conds ← add_geoip rr conds;
  conds ← add_source_geoip rr conds;
  let conds := add_custom_geoip rr conds in
  let conds := add_protocol rr conds in
  conds ← add_attributes rr conds;
  let conds := add_application rr conds in
  if ConditionChan_Len conds =? 0 then
    Err (AtWarning (newError "this rule has no effective fields"))
  else Ok conds.

(** *** The construction as the specification words it *)

(** No matcher field of the description is populated. *)
Definition unpopulated (rr : RoutingRule.t) : Prop :=
  RoutingRule.Domain rr = [] /\
  RoutingRule.UserEmail rr = [] /\
  RoutingRule.InboundTag rr = [] /\
  RoutingRule.PortList rr = None /\
  RoutingRule.PortRange rr = None /\
  RoutingRule.Networks rr = [] /\
  RoutingRule.NetworkList rr = None /\
  RoutingRule.Geoip rr = [] /\
  RoutingRule.Cidr rr = [] /\
  RoutingRule.SourceGeoip rr = [] /\
  RoutingRule.SourceCidr rr = [] /\
  RoutingRule.CustomGeoip rr = [] /\
  RoutingRule.Protocol rr = [] /\
  RoutingRule.Attributes rr = EmptyString /\
  RoutingRule.Application rr = [].

(** The matcher a list-valued field implies: none when the list is empty. *)
Definition of_list {A B} (l : list A) (build : list A -> B) : list B :=
  match l with
  | [] => []
  | _ :: _ => [build l]
  end.

(** The matcher a field with a fallback implies: the preferred field when
    it is populated, else the fallback. *)
Definition prefer {B} (preferred fallback : list B) : list B :=
  match preferred with
  | [] => fallback
  | _ :: _ => preferred
  end.

(** The matchers implied by the populated fields, each with the outcome of
    its constructor, in the fixed order of the specification. *)
Definition implied (rr : RoutingRule.t) : list (result error Condition) :=
  (* domain *)
  of_list (RoutingRule.Domain rr) NewDomainMatcher ++
  (* user *)
  of_list (RoutingRule.UserEmail rr) (fun l => Ok (NewUserMatcher l)) ++
  (* inbound tag *)
  of_list (RoutingRule.InboundTag rr) (fun l => Ok (NewInboundTagMatcher l)) ++
  (* port: explicit list over single range *)
  prefer
    (match RoutingRule.PortList rr with
     | Some pl => [Ok (NewPortMatcher pl)]
     | None => []
     end)
    (match RoutingRule.PortRange rr with
     | Some r => [Ok (NewPortMatcher (PortList.mk [r]))]
     | None => []
     end) ++
  (* network: explicit list over network list *)
  prefer
    (of_list (RoutingRule.Networks rr) (fun l => Ok (NewNetworkMatcher l)))
    (match RoutingRule.NetworkList rr with
     | Some nl => [Ok (NewNetworkMatcher (NetworkList.Network nl))]
     | None => []
     end) ++
  (* destination: named lists over raw CIDR *)
  prefer
    (of_list (RoutingRule.Geoip rr) (fun l => NewMultiGeoIPMatcher l false))
    (of_list (RoutingRule.Cidr rr)
       (fun l => NewMultiGeoIPMatcher [GeoIP.mk EmptyString l] false)) ++
  (* source: named lists over raw CIDR *)
  prefer
    (of_list (RoutingRule.SourceGeoip rr)
       (fun l => NewMultiGeoIPMatcher l true))
    (of_list (RoutingRule.SourceCidr rr)
       (fun l => NewMultiGeoIPMatcher [GeoIP.mk EmptyString l] true)) ++
  (* custom GeoIP *)
  of_list (RoutingRule.CustomGeoip rr)
    (fun l => Ok (NewCustomGeoIPMatcher l false)) ++
  (* protocol *)
  of_list (RoutingRule.Protocol rr) (fun l => Ok (NewProtocolMatcher l)) ++
  (* attribute script *)
  (match RoutingRule.Attributes rr with
   | EmptyString => []
   | String _ _ => [NewAttributeMatcher (RoutingRule.Attributes rr)]
   end) ++
  (* application *)
  of_list (RoutingRule.Application rr) (fun l => Ok (NewApplicationMatcher l)).

(** A submatcher constructor that [BuildCondition] has to call for [rr]
    fails with [e]. *)
Inductive submatcher_fails (rr : RoutingRule.t) (e : error) : Prop :=
| fails_domain :
    RoutingRule.Domain rr <> [] ->
    NewDomainMatcher (RoutingRule.Domain rr) = Err e ->
    submatcher_fails rr e
| fails_geoip :
    RoutingRule.Geoip rr <> [] ->
    NewMultiGeoIPMatcher (RoutingRule.Geoip rr) false = Err e ->
    submatcher_fails rr e
| fails_cidr :
    RoutingRule.Geoip rr = [] ->
    RoutingRule.Cidr rr <> [] ->
    NewMultiGeoIPMatcher [GeoIP.mk EmptyString (RoutingRule.Cidr rr)] false
      = Err e ->
    submatcher_fails rr e
| fails_source_geoip :
    RoutingRule.SourceGeoip rr <> [] ->
    NewMultiGeoIPMatcher (RoutingRule.SourceGeoip rr) true = Err e ->
    submatcher_fails rr e
| fails_source_cidr :
    RoutingRule.SourceGeoip rr = [] ->
    RoutingRule.SourceCidr rr <> [] ->
    NewMultiGeoIPMatcher
      [GeoIP.mk EmptyString (RoutingRule.SourceCidr rr)] true = Err e ->
    submatcher_fails rr e
| fails_attributes :
    RoutingRule.Attributes rr <> EmptyString ->
    NewAttributeMatcher (RoutingRule.Attributes rr) = Err e ->
    submatcher_fails rr e.

(** The error [BuildCondition] reports for a failure [e]: the domain
    failure is wrapped, the others are passed on as they are. *)
Definition reports (rr : RoutingRule.t) (e reported : error) : Prop :=
  reported = e \/
  (NewDomainMatcher (RoutingRule.Domain rr) = Err e /\
   reported = Base (newError "failed to build domain condition") e).

End Conditions.

(** ** Rules and balancers *)

(** [type RandomStrategy struct{}] *)
Inductive RandomStrategy : Type := mkRandomStrategy.

(** A non-nil value of the [BalancingStrategy] interface: a pointer to a
    [RandomStrategy] or to a [LatencyStrategy]. *)
Inductive BalancingStrategy (LatencyStrategy : Type) : Type :=
| OfRandom (s : RandomStrategy)
| OfLatency (ls : LatencyStrategy).
Arguments OfRandom {LatencyStrategy} s.
Arguments OfLatency {LatencyStrategy} ls.

Module Balancer.
Record t {Manager LatencyStrategy : Type} : Type := mk {
  selectors : list string;
  strategy : option (BalancingStrategy LatencyStrategy);
  ohm : Manager
}.
Arguments t : clear implicits.
End Balancer.

Module Rule.
  (** The [Condition] of a rule is the chain [BuildCondition] returned. *)
Record t `{Matchers} {Manager LatencyStrategy : Type} : Type := mk {
  Tag : string;
  Balancer : option (Balancer.t Manager LatencyStrategy);
  Condition : ConditionChan
}.
Arguments t {_} Manager LatencyStrategy.
End Rule.

(** The [BalancingRule] message.  The numeric fields are kept as the integers
    they hold; [Build] converts them with [int] and [time.Duration]. *)
Module BalancingRule.
Record t : Type := mk {
  Tag : string;
  OutboundSelector : list string;
  BalancingStrategy : Z;
  TotalMeasures : Z;
  Interval : Z;
  Delay : Z;
  Timeout : Z;
  Tolerance : Z;
  ProbeTarget : string;
  ProbeContent : string
}.
End BalancingRule.

(** Conversion to a 64-bit signed integer ([int], [time.Duration]). *)
Definition wrap64 (z : Z) : Z := (z + 2 ^ 63) mod 2 ^ 64 - 2 ^ 63.

(** [int(x)] *)
Definition int (x : Z) : Z := wrap64 x.

(** [time.Second] and [time.Millisecond], in nanoseconds. *)
Definition Second : Z := 1000000000.
Definition Millisecond : Z := 1000000.

(** [time.Duration(x) * unit] *)
Definition Duration_times (x unit : Z) : Z := wrap64 (wrap64 x * unit).

Section Balancing.
Context `{Matchers} {Manager LatencyStrategy World : Type}.

(** [Balancer.PickOutbound], defined outside this file: it reads the
    outbound registry and may draw a random number, so it runs in a
    world it may change, and returns a Go pair [(tag, error)]. *)
Variable PickOutbound :
  Balancer.t Manager LatencyStrategy -> World ->
  (string * option error) * World.

(** [func (r *Rule) GetTag() (string, error)] *)
Definition GetTag (r : Rule.t Manager LatencyStrategy) (w : World)
  : (string * option error) * World :=
  match Rule.Balancer r with
  | Some b => PickOutbound b w
  | None => ((Rule.Tag r, None), w)
  end.

(** The two strategy kinds of the generated enumeration and the
    constructor of the latency strategy, all defined outside this file. *)
Variable BalancingRule_Random BalancingRule_Latency : Z.
Variable NewLatencyStrategy :
  Manager -> list string -> Z -> Z -> Z -> Z -> Z -> string -> string ->
  option LatencyStrategy.

(** [func (br *BalancingRule) Build(ohm outbound.Manager)], returning the
    Go pair of a [Balancer] pointer and an error. *)
Definition Build (br : BalancingRule.t) (ohm : Manager)
  : option (Balancer.t Manager LatencyStrategy) * option error :=
  let strategy : option (BalancingStrategy LatencyStrategy) := None in
  let strategy :=
    if BalancingRule.BalancingStrategy br =? BalancingRule_Random
    then Some (OfRandom mkRandomStrategy)
    else strategy in
  let strategy :=
    if BalancingRule.BalancingStrategy br =? BalancingRule_Latency then
      match NewLatencyStrategy
              ohm
              (BalancingRule.OutboundSelector br)
              (int (BalancingRule.TotalMeasures br))
              (Duration_times (BalancingRule.Interval br) Second)
              (Duration_times (BalancingRule.Delay br) Second)
              (Duration_times (BalancingRule.Timeout br) Second)
              (Duration_times (BalancingRule.Tolerance br) Millisecond)
              (BalancingRule.ProbeTarget br)
              (BalancingRule.ProbeContent br) with
      | Some ls => Some (OfLatency ls)
      | None => strategy
      end
    else strategy in
  (Some (Balancer.mk Manager LatencyStrategy
           (BalancingRule.OutboundSelector br) strategy ohm),
   None).

End Balancing.

End Router.

(** ** Generated transport configuration messages (package [internet]) *)

Module Internet.

(** [type TransportProtocol int32] and its named values. *)
Definition TransportProtocol_TCP : Z := 0.
Definition TransportProtocol_UDP : Z := 1.
Definition TransportProtocol_MKCP : Z := 2.
Definition TransportProtocol_WebSocket : Z := 3.
Definition TransportProtocol_HTTP : Z := 4.
Definition TransportProtocol_DomainSocket : Z := 5.

(** [type SocketConfig_TCPFastOpenState int32] *)
Definition SocketConfig_AsIs : Z := 0.
Definition SocketConfig_Enable : Z := 1.
Definition SocketConfig_Disable : Z := 2.

(** [type SocketConfig_TProxyMode int32] *)
Definition SocketConfig_Off : Z := 0.
Definition SocketConfig_TProxy : Z := 1.
Definition SocketConfig_Redirect : Z := 2.

(** The generated tables of each enumeration: [X_name] from the number to the
    name, [X_value] from the name to the number. *)
Definition TransportProtocol_name : gmap Z string :=
  list_to_map
    [ (0, "TCP"); (1, "UDP"); (2, "MKCP"); (3, "WebSocket"); (4, "HTTP");
      (5, "DomainSocket") ]%string.

Definition TransportProtocol_value : gmap string Z :=
  list_to_map
    [ ("TCP", 0); ("UDP", 1); ("MKCP", 2); ("WebSocket", 3); ("HTTP", 4);
      ("DomainSocket", 5) ]%string.

Definition SocketConfig_TCPFastOpenState_name : gmap Z string :=
  list_to_map [ (0, "AsIs"); (1, "Enable"); (2, "Disable") ]%string.

Definition SocketConfig_TCPFastOpenState_value : gmap string Z :=
  list_to_map [ ("AsIs", 0); ("Enable", 1); ("Disable", 2) ]%string.

Definition SocketConfig_TProxyMode_name : gmap Z string :=
  list_to_map [ (0, "Off"); (1, "TProxy"); (2, "Redirect") ]%string.

Definition SocketConfig_TProxyMode_value : gmap string Z :=
  list_to_map [ ("Off", 0); ("TProxy", 1); ("Redirect", 2) ]%string.

(** Every message is parametrised by [TypedMessage], the message type of
    package [serial]; a receiver is a pointer, hence an [option]. *)

Module TransportConfig.
Record t {TypedMessage : Type} : Type := mk {
  Protocol : Z;
  ProtocolName : string;
  Settings : option TypedMessage
}.
Arguments t : clear implicits.

Section Getters.
Context {TypedMessage : Type}.

Definition GetProtocol (m : option (t TypedMessage)) : Z :=
  match m with
  | Some m => Protocol m
  | None => TransportProtocol_TCP
  end.

Definition GetProtocolName (m : option (t TypedMessage)) : string :=
  match m with
  | Some m => ProtocolName m
  | None => EmptyString
  end.

Definition GetSettings (m : option (t TypedMessage)) : option TypedMessage :=
  match m with
  | Some m => Settings m
  | None => None
  end.

(** [func (m *TransportConfig) Reset()]: the message [m] points to after
    the call; a nil receiver panics. *)
Definition Reset (m : option (t TypedMessage)) : option (t TypedMessage) :=
  match m with
  | Some _ => Some (mk TypedMessage 0 EmptyString None)
  | None => None
  end.
End Getters.
End TransportConfig.

Module SocketConfig.
Record t : Type := mk {
  Mark : Z;
  Tfo : Z;
  Tproxy : Z;
  ReceiveOriginalDestAddress : bool;
  BindAddress : list Z;
  BindPort : Z;
  Tos : Z
}.

Definition GetMark (m : option t) : Z :=
  match m with
  | Some m => Mark m
  | None => 0
  end.

Definition GetTfo (m : option t) : Z :=
  match m with
  | Some m => Tfo m
  | None => SocketConfig_AsIs
  end.

Definition GetTproxy (m : option t) : Z :=
  match m with
  | Some m => Tproxy m
  | None => SocketConfig_Off
  end.

Definition GetReceiveOriginalDestAddress (m : option t) : bool :=
  match m with
  | Some m => ReceiveOriginalDestAddress m
  | None => false
  end.

Definition GetBindAddress (m : option t) : list Z :=
  match m with
  | Some m => BindAddress m
  | None => []
  end.

Definition GetBindPort (m : option t) : Z :=
  match m with
  | Some m => BindPort m
  | None => 0
  end.

Definition GetTos (m : option t) : Z :=
  match m with
  | Some m => Tos m
  | None => 0
  end.

(** [func (m *SocketConfig) Reset()] *)
Definition Reset (m : option t) : option t :=
  match m with
  | Some _ => Some (mk 0 0 0 false [] 0 0)
  | None => None
  end.
End SocketConfig.

Module StreamConfig.
Record t {TypedMessage : Type} : Type := mk {
  Protocol : Z;
  ProtocolName : string;
  TransportSettings : list (TransportConfig.t TypedMessage);
  SecurityType : string;
  SecuritySettings : list TypedMessage;
  SocketSettings : option SocketConfig.t
}.
Arguments t : clear implicits.

Section Getters.
Context {TypedMessage : Type}.

Definition GetProtocol (m : option (t TypedMessage)) : Z :=
  match m with
  | Some m => Protocol m
  | None => TransportProtocol_TCP
  end.

Definition GetProtocolName (m : option (t TypedMessage)) : string :=
  match m with
  | Some m => ProtocolName m
  | None => EmptyString
  end.

Definition GetTransportSettings (m : option (t TypedMessage))
  : list (TransportConfig.t TypedMessage) :=
  match m with
  | Some m => TransportSettings m
  | None => []
  end.

Definition GetSecurityType (m : option (t TypedMessage)) : string :=
  match m with
  | Some m => SecurityType m
  | None => EmptyString
  end.

Definition GetSecuritySettings (m : option (t TypedMessage))
  : list TypedMessage :=
  match m with
  | Some m => SecuritySettings m
  | None => []
  end.

Definition GetSocketSettings (m : option (t TypedMessage))
  : option SocketConfig.t :=
  match m with
  | Some m => SocketSettings m
  | None => None
  end.

(** [func (m *StreamConfig) Reset()] *)
Definition Reset (m : option (t TypedMessage)) : option (t TypedMessage) :=
  match m with
  | Some _ => Some (mk TypedMessage 0 EmptyString [] EmptyString [] None)
  | None => None
  end.
End Getters.
End StreamConfig.

Module ProxyConfig.
Record t : Type := mk { Tag : string }.

Definition GetTag (m : option t) : string :=
  match m with
  | Some m => Tag m
  | None => EmptyString
  end.

(** [func (m *ProxyConfig) Reset()] *)
Definition Reset (m : option t) : option t :=
  match m with
  | Some _ => Some (mk EmptyString)
  | None => None
  end.
End ProxyConfig.

End Internet.


(** * Auxiliary definitions *)

Import Router.

(** The loop, read as a recursion on the two byte strings. *)
Fixpoint lex_exit (a b : list Z) : loop_exit :=
  match a, b with
  | x :: a', y :: b' =>
      if x <? y then Return true
      else if x >? y then Return false
      else lex_exit a' b'
  | _, _ => Fallthrough
  end.

(** [Less] on two entries, as a boolean: the panic-free reading of
    [cidr_less]. *)
Definition cidr_ltb (ci cj : CIDR) : bool :=
  if (length (Ip ci) <? length (Ip cj))%nat then true
  else if (length (Ip cj) <? length (Ip ci))%nat then false
  else
    match lex_exit (Ip ci) (Ip cj) with
    | Return b => b
    | _ => Prefix ci <? Prefix cj
    end.

(** The relation a sorted list satisfies between an earlier and a later
    entry: the later one is not less than the earlier one. *)
Definition not_after (ci cj : CIDR) : Prop := cidr_ltb cj ci = false.

(** The values of a list of constructor outcomes, or the first error. *)
Fixpoint collect {A} (rs : list (result error A)) : result error (list A) :=
  match rs with
  | [] => Ok []
  | r :: rs' => a ← r; l ← collect rs'; Ok (a :: l)
  end.

(** What [BuildCondition] returns when [collect (implied rr)] stops at the
    error [e]: the error of the domain matcher is wrapped. *)
Definition reported `{Matchers} (rr : RoutingRule.t) (e : error) : error :=
  match RoutingRule.Domain rr with
  | [] => e
  | _ :: _ =>
      match NewDomainMatcher (RoutingRule.Domain rr) with
      | Err _ => Base (newError "failed to build domain condition") e
      | Ok _ => e
      end
  end.

(** The description [rr] with one lower-precedence field replaced. *)
Definition with_PortRange `{Matchers} (rr : RoutingRule.t)
  (r : option PortRange.t) : RoutingRule.t :=
  RoutingRule.mk _
    (RoutingRule.Domain rr) (RoutingRule.UserEmail rr)
    (RoutingRule.InboundTag rr) (RoutingRule.PortList rr) r
    (RoutingRule.Networks rr) (RoutingRule.NetworkList rr)
    (RoutingRule.Geoip rr) (RoutingRule.Cidr rr)
    (RoutingRule.SourceGeoip rr) (RoutingRule.SourceCidr rr)
    (RoutingRule.CustomGeoip rr) (RoutingRule.Protocol rr)
    (RoutingRule.Attributes rr) (RoutingRule.Application rr).

Definition with_NetworkList `{Matchers} (rr : RoutingRule.t)
  (nl : option NetworkList.t) : RoutingRule.t :=
  RoutingRule.mk _
    (RoutingRule.Domain rr) (RoutingRule.UserEmail rr)
    (RoutingRule.InboundTag rr) (RoutingRule.PortList rr)
    (RoutingRule.PortRange rr)
    (RoutingRule.Networks rr) nl
    (RoutingRule.Geoip rr) (RoutingRule.Cidr rr)
    (RoutingRule.SourceGeoip rr) (RoutingRule.SourceCidr rr)
    (RoutingRule.CustomGeoip rr) (RoutingRule.Protocol rr)
    (RoutingRule.Attributes rr) (RoutingRule.Application rr).

Definition with_Cidr `{Matchers} (rr : RoutingRule.t)
  (cidr : CIDRList) : RoutingRule.t :=
  RoutingRule.mk _
    (RoutingRule.Domain rr) (RoutingRule.UserEmail rr)
    (RoutingRule.InboundTag rr) (RoutingRule.PortList rr)
    (RoutingRule.PortRange rr)
    (RoutingRule.Networks rr) (RoutingRule.NetworkList rr)
    (RoutingRule.Geoip rr) cidr
    (RoutingRule.SourceGeoip rr) (RoutingRule.SourceCidr rr)
    (RoutingRule.CustomGeoip rr) (RoutingRule.Protocol rr)
    (RoutingRule.Attributes rr) (RoutingRule.Application rr).

Definition with_SourceCidr `{Matchers} (rr : RoutingRule.t)
  (cidr : CIDRList) : RoutingRule.t :=
  RoutingRule.mk _
    (RoutingRule.Domain rr) (RoutingRule.UserEmail rr)
    (RoutingRule.InboundTag rr) (RoutingRule.PortList rr)
    (RoutingRule.PortRange rr)
    (RoutingRule.Networks rr) (RoutingRule.NetworkList rr)
    (RoutingRule.Geoip rr) (RoutingRule.Cidr rr)
    (RoutingRule.SourceGeoip rr) cidr
    (RoutingRule.CustomGeoip rr) (RoutingRule.Protocol rr)
    (RoutingRule.Attributes rr) (RoutingRule.Application rr).

(** ** A sample instance of the matcher constructors *)

(** Matchers that record what they were built from. *)
Inductive sample_condition : Type :=
| SampleDomain (l : list string)
| SampleUser (l : list string)
| SampleInboundTag (l : list string)
| SamplePort (pl : PortList.t)
| SampleNetwork (l : list Z)
| SampleGeoIP (l : list GeoIP.t) (reverse : bool)
| SampleCustomGeoIP (l : list string) (reverse : bool)
| SampleProtocol (l : list string)
| SampleAttribute (code : string)
| SampleApplication (l : list string).

(** The domain matcher rejects a list that starts with the pattern "(", the
    GeoIP matcher a list that starts with the country code "??", and the
    attribute matcher the script "(". *)
Definition sample_matchers : Matchers := {|
  DomainEntry := string;
  CustomGeoIPEntry := string;
  Condition := sample_condition;
  NewDomainMatcher l :=
    match l with
    | d :: _ =>
        if String.eqb d "(" then Err (External "missing closing )")
        else Ok (SampleDomain l)
    | [] => Ok (SampleDomain l)
    end;
  NewUserMatcher := SampleUser;
  NewInboundTagMatcher := SampleInboundTag;
  NewPortMatcher := SamplePort;
  NewNetworkMatcher := SampleNetwork;
  NewMultiGeoIPMatcher l reverse :=
    match l with
    | g :: _ =>
        if String.eqb (GeoIP.CountryCode g) "??"
        then Err (External "country not found")
        else Ok (SampleGeoIP l reverse)
    | [] => Ok (SampleGeoIP l reverse)
    end;
  NewCustomGeoIPMatcher := SampleCustomGeoIP;
  NewProtocolMatcher := SampleProtocol;
  NewAttributeMatcher code :=
    if String.eqb code "(" then Err (External "invalid syntax")
    else Ok (SampleAttribute code);
  NewApplicationMatcher := SampleApplication
|}.

(** The rule description with no field populated. *)
Definition empty_rule : @RoutingRule.t sample_matchers :=
  @RoutingRule.mk sample_matchers
    [] [] [] None None [] None [] [] [] [] [] [] EmptyString [].

(** A rule description with a malformed domain pattern and other fields. *)
Definition bad_domain_rule : @RoutingRule.t sample_matchers :=
  @RoutingRule.mk sample_matchers
    ["("%string] ["alice@example.com"%string] [] None None [] None [] [] [] []
    [] [] EmptyString [].

(** A rule description with every kind of field populated, both fields of
    each pair with a precedence included. *)
Definition full_rule : @RoutingRule.t sample_matchers :=
  @RoutingRule.mk sample_matchers
    ["example.com"%string]
    ["alice@example.com"%string]
    ["in-1"%string]
    (Some (PortList.mk [PortRange.mk 80 80; PortRange.mk 443 443]))
    (Some (PortRange.mk 1 1024))
    [2]
    (Some (NetworkList.mk [3]))
    [GeoIP.mk "cn" []]
    sample_cidrs
    [GeoIP.mk "private" []]
    sample_cidrs
    ["ext:custom.dat:list"%string]
    ["http"%string]
    "attrs[':method'] == 'GET'"
    ["firefox"%string].

(** The call of the latency constructor that [Build] makes for [br]. *)
Definition latency_of {Manager LatencyStrategy : Type}
  (NewLatencyStrategy :
     Manager -> list string -> Z -> Z -> Z -> Z -> Z -> string -> string ->
     option LatencyStrategy)
  (br : BalancingRule.t) (ohm : Manager) : option LatencyStrategy :=
  NewLatencyStrategy ohm
    (BalancingRule.OutboundSelector br)
    (int (BalancingRule.TotalMeasures br))
    (Duration_times (BalancingRule.Interval br) Second)
    (Duration_times (BalancingRule.Delay br) Second)
    (Duration_times (BalancingRule.Timeout br) Second)
    (Duration_times (BalancingRule.Tolerance br) Millisecond)
    (BalancingRule.ProbeTarget br)
    (BalancingRule.ProbeContent br).

(** ** A sample balancer environment *)

(** The registry handle is the list of the live outbound tags; the world is
    a counter of the picks made so far. *)
Definition sample_manager : Type := list string.
Definition sample_world : Type := nat.

(** A latency strategy that records what it was built from. *)
Record sample_latency : Type := mkSampleLatency {
  sample_total : Z;
  sample_interval : Z;
  sample_delay : Z;
  sample_timeout : Z;
  sample_tolerance : Z;
  sample_target : string;
  sample_content : string
}.

(** The constructor yields nil when it is asked for no measure at all. *)
Definition sample_NewLatencyStrategy (ohm : sample_manager)
  (selectors : list string) (total interval delay timeout tolerance : Z)
  (target content : string) : option sample_latency :=
  if total <=? 0 then None
  else Some (mkSampleLatency total interval delay timeout tolerance
               target content).

(** A pick that takes the first live tag starting with the first selector,
    and fails when there is none. *)
Definition sample_PickOutbound
  (b : Balancer.t sample_manager sample_latency) (w : sample_world)
  : (string * option error) * sample_world :=
  match Balancer.selectors b with
  | [] => ((EmptyString, Some (External "no available outbounds")), w)
  | sel :: _ =>
      match filter (fun tag => String.prefix sel tag = true) (Balancer.ohm b) with
      | [] => ((EmptyString, Some (External "no available outbounds")), w)
      | tag :: _ => ((tag, None), S w)
      end
  end.

Definition sample_balancer : Balancer.t sample_manager sample_latency :=
  Balancer.mk sample_manager sample_latency ["out-"%string]
    (Some (OfRandom mkRandomStrategy)) ["direct"; "out-a"; "out-b"]%string.

(** A rule with both a balancer and a tag, and a rule with neither. *)
Definition both_rule : @Rule.t sample_matchers sample_manager sample_latency :=
  @Rule.mk sample_matchers sample_manager sample_latency
    "direct" (Some sample_balancer) [SampleNetwork [2]].

Definition neither_rule : @Rule.t sample_matchers sample_manager sample_latency :=
  @Rule.mk sample_matchers sample_manager sample_latency
    EmptyString None [SampleNetwork [2]].

Definition tag_rule : @Rule.t sample_matchers sample_manager sample_latency :=
  @Rule.mk sample_matchers sample_manager sample_latency
    "direct" None [SampleNetwork [2]].

(** Balancing rules of kind Random (0), Latency (1) and an unknown kind. *)
Definition random_rule : BalancingRule.t :=
  BalancingRule.mk "lb" ["out-"%string] 0 0 0 0 0 0 EmptyString EmptyString.

Definition latency_rule : BalancingRule.t :=
  BalancingRule.mk "lb" ["out-"%string] 1 5 60 10 3 50
    "www.example.com:443" "ping".

Definition latency_rule_no_measure : BalancingRule.t :=
  BalancingRule.mk "lb" ["out-"%string] 1 0 60 10 3 50
    "www.example.com:443" "ping".

Definition unknown_kind_rule : BalancingRule.t :=
  BalancingRule.mk "lb" ["out-"%string] 7 5 60 10 3 50 EmptyString EmptyString.

(** ** Definitions for the further properties *)

(** Both indices are inside the list. *)
Definition in_range (l : CIDRList) (i j : Z) : Prop :=
  (0 <= i < Len l) /\ (0 <= j < Len l).

(** What the standard sort leaves behind: [Less] is false from every later
    index to every earlier one. *)
Definition ordered (l : CIDRList) : Prop :=
  forall i j : Z, 0 <= i -> i < j -> j < Len l -> Less l j i = Some false.

(** The description [rr] with one higher-precedence field replaced. *)
Definition with_PortList `{Matchers} (rr : RoutingRule.t)
  (pl : option PortList.t) : RoutingRule.t :=
  RoutingRule.mk _
    (RoutingRule.Domain rr) (RoutingRule.UserEmail rr)
    (RoutingRule.InboundTag rr) pl (RoutingRule.PortRange rr)
    (RoutingRule.Networks rr) (RoutingRule.NetworkList rr)
    (RoutingRule.Geoip rr) (RoutingRule.Cidr rr)
    (RoutingRule.SourceGeoip rr) (RoutingRule.SourceCidr rr)
    (RoutingRule.CustomGeoip rr) (RoutingRule.Protocol rr)
    (RoutingRule.Attributes rr) (RoutingRule.Application rr).

Definition with_Networks `{Matchers} (rr : RoutingRule.t)
  (networks : list Z) : RoutingRule.t :=
  RoutingRule.mk _
    (RoutingRule.Domain rr) (RoutingRule.UserEmail rr)
    (RoutingRule.InboundTag rr) (RoutingRule.PortList rr)
    (RoutingRule.PortRange rr)
    networks (RoutingRule.NetworkList rr)
    (RoutingRule.Geoip rr) (RoutingRule.Cidr rr)
    (RoutingRule.SourceGeoip rr) (RoutingRule.SourceCidr rr)
    (RoutingRule.CustomGeoip rr) (RoutingRule.Protocol rr)
    (RoutingRule.Attributes rr) (RoutingRule.Application rr).

Definition with_Geoip `{Matchers} (rr : RoutingRule.t)
  (geoip : list GeoIP.t) : RoutingRule.t :=
  RoutingRule.mk _
    (RoutingRule.Domain rr) (RoutingRule.UserEmail rr)
    (RoutingRule.InboundTag rr) (RoutingRule.PortList rr)
    (RoutingRule.PortRange rr)
    (RoutingRule.Networks rr) (RoutingRule.NetworkList rr)
    geoip (RoutingRule.Cidr rr)
    (RoutingRule.SourceGeoip rr) (RoutingRule.SourceCidr rr)
    (RoutingRule.CustomGeoip rr) (RoutingRule.Protocol rr)
    (RoutingRule.Attributes rr) (RoutingRule.Application rr).

Definition with_SourceGeoip `{Matchers} (rr : RoutingRule.t)
  (geoip : list GeoIP.t) : RoutingRule.t :=
  RoutingRule.mk _
    (RoutingRule.Domain rr) (RoutingRule.UserEmail rr)
    (RoutingRule.InboundTag rr) (RoutingRule.PortList rr)
    (RoutingRule.PortRange rr)
    (RoutingRule.Networks rr) (RoutingRule.NetworkList rr)
    (RoutingRule.Geoip rr) (RoutingRule.Cidr rr)
    geoip (RoutingRule.SourceCidr rr)
    (RoutingRule.CustomGeoip rr) (RoutingRule.Protocol rr)
    (RoutingRule.Attributes rr) (RoutingRule.Application rr).

(** The domain block of [BuildCondition] does not fail for [rr]. *)
Definition domain_builds `{Matchers} (rr : RoutingRule.t) : Prop :=
  RoutingRule.Domain rr = [] \/
  exists m, NewDomainMatcher (RoutingRule.Domain rr) = Ok m.

(** The destination block does not fail for [rr]. *)
Definition destination_builds `{Matchers} (rr : RoutingRule.t) : Prop :=
  (RoutingRule.Geoip rr = [] /\ RoutingRule.Cidr rr = []) \/
  (RoutingRule.Geoip rr <> [] /\
   exists m, NewMultiGeoIPMatcher (RoutingRule.Geoip rr) false = Ok m) \/
  (RoutingRule.Geoip rr = [] /\ RoutingRule.Cidr rr <> [] /\
   exists m,
     NewMultiGeoIPMatcher [GeoIP.mk EmptyString (RoutingRule.Cidr rr)] false
     = Ok m).

(** The source block does not fail for [rr]. *)
Definition source_builds `{Matchers} (rr : RoutingRule.t) : Prop :=
  (RoutingRule.SourceGeoip rr = [] /\ RoutingRule.SourceCidr rr = []) \/
  (RoutingRule.SourceGeoip rr <> [] /\
   exists m, NewMultiGeoIPMatcher (RoutingRule.SourceGeoip rr) true = Ok m) \/
  (RoutingRule.SourceGeoip rr = [] /\ RoutingRule.SourceCidr rr <> [] /\
   exists m,
     NewMultiGeoIPMatcher
       [GeoIP.mk EmptyString (RoutingRule.SourceCidr rr)] true = Ok m).

(** The destination block fails with [e] for [rr]. *)
Definition destination_fails `{Matchers} (rr : RoutingRule.t) (e : error)
  : Prop :=
  (RoutingRule.Geoip rr <> [] /\
   NewMultiGeoIPMatcher (RoutingRule.Geoip rr) false = Err e) \/
  (RoutingRule.Geoip rr = [] /\ RoutingRule.Cidr rr <> [] /\
   NewMultiGeoIPMatcher [GeoIP.mk EmptyString (RoutingRule.Cidr rr)] false
   = Err e).

(** The source block fails with [e] for [rr]. *)
Definition source_fails `{Matchers} (rr : RoutingRule.t) (e : error) : Prop :=
  (RoutingRule.SourceGeoip rr <> [] /\
   NewMultiGeoIPMatcher (RoutingRule.SourceGeoip rr) true = Err e) \/
  (RoutingRule.SourceGeoip rr = [] /\ RoutingRule.SourceCidr rr <> [] /\
   NewMultiGeoIPMatcher [GeoIP.mk EmptyString (RoutingRule.SourceCidr rr)] true
   = Err e).

(** A rule description whose destination list names an unknown country,
    whose source list is fine and whose attribute script is malformed. *)
Definition bad_geoip_rule : @RoutingRule.t sample_matchers :=
  @RoutingRule.mk sample_matchers
    ["example.com"%string] [] [] None None [] None
    [GeoIP.mk "??" []] [] [GeoIP.mk "cn" []] [] [] [] "(" [].

(** Rule descriptions that use only the lower-precedence fields. *)
Definition fallback_rule : @RoutingRule.t sample_matchers :=
  @RoutingRule.mk sample_matchers
    [] [] [] None (Some (PortRange.mk 1 1024)) [] (Some (NetworkList.mk [2; 3]))
    [] sample_cidrs [] sample_cidrs [] [] EmptyString [].

(** * Properties *)

(** ** The byte loop of [Less] *)

Lemma index_drop {A} (l : list A) (k : Z) (x : A) (l' : list A) :
  0 <= k -> drop (Z.to_nat k) l = x :: l' ->
  index l k = Some x /\ drop (Z.to_nat (k + 1)) l = l'.
Proof.
  intros Hk Hd. unfold index.
  destruct (Z.ltb_spec k 0) as [?|_]; [lia|].
  split.
  - pose proof (lookup_drop l (Z.to_nat k) 0) as E.
    rewrite Hd, Nat.add_0_r in E. symmetry. exact E.
  - replace (Z.to_nat (k + 1)) with (Z.to_nat k + 1)%nat by lia.
    rewrite <- drop_drop, Hd. reflexivity.
Qed.

Lemma Less_loop_lex_exit (n : nat) : forall (k : Z) (a b : list Z),
  0 <= k ->
  length (drop (Z.to_nat k) a) = n ->
  length (drop (Z.to_nat k) b) = n ->
  Less_loop n k a b = lex_exit (drop (Z.to_nat k) a) (drop (Z.to_nat k) b).
Proof.
  induction n as [|n IH]; intros k a b Hk Ha Hb.
  - destruct (drop (Z.to_nat k) a); [reflexivity | discriminate].
  - destruct (drop (Z.to_nat k) a) as [|x a'] eqn:Ea; [discriminate|].
    destruct (drop (Z.to_nat k) b) as [|y b'] eqn:Eb; [discriminate|].
    destruct (index_drop a k x a' Hk Ea) as [Ia Da].
    destruct (index_drop b k y b' Hk Eb) as [Ib Db].
    cbn [Less_loop lex_exit]. rewrite Ia, Ib.
    destruct (x <? y); [reflexivity|].
    destruct (x >? y); [reflexivity|].
    rewrite IH by (rewrite ?Da, ?Db; simpl in *; lia).
    rewrite Da, Db. reflexivity.
Qed.

Lemma lex_exit_not_panic (a b : list Z) : lex_exit a b <> Panic.
Proof.
  revert b; induction a as [|x a IH]; intros [|y b]; simpl; try discriminate.
  destruct (x <? y); [discriminate|]. destruct (x >? y); [discriminate|].
  apply IH.
Qed.

Lemma lex_exit_refl (a : list Z) : lex_exit a a = Fallthrough.
Proof.
  induction a as [|x a IH]; simpl; [reflexivity|].
  rewrite Z.ltb_irrefl.
  destruct (Z.gtb_spec x x); [lia | exact IH].
Qed.

Lemma lex_exit_fallthrough (a b : list Z) :
  length a = length b -> lex_exit a b = Fallthrough -> a = b.
Proof.
  revert b; induction a as [|x a IH]; intros [|y b] Hl; simpl in *;
    try discriminate; [reflexivity|].
  destruct (Z.ltb_spec x y); [discriminate|].
  destruct (Z.gtb_spec x y); [discriminate|].
  intros E. f_equal; [lia | apply IH; [lia | exact E]].
Qed.

Lemma lex_exit_flip (a b : list Z) :
  length a = length b ->
  lex_exit a b = Return true <-> lex_exit b a = Return false.
Proof.
  revert b; induction a as [|x a IH]; intros [|y b] Hl; simpl in *;
    try discriminate; [split; discriminate|].
  destruct (Z.ltb_spec x y), (Z.ltb_spec y x), (Z.gtb_spec x y),
    (Z.gtb_spec y x); try lia; try (split; congruence).
  apply IH; lia.
Qed.

Lemma lex_exit_trans (a : list Z) : forall b c : list Z,
  lex_exit a b = Return true -> lex_exit b c = Return true ->
  lex_exit a c = Return true.
Proof.
  induction a as [|x a IH]; intros [|y b] [|z c]; simpl; try discriminate.
  destruct (Z.ltb_spec x y), (Z.ltb_spec y z), (Z.ltb_spec x z),
    (Z.gtb_spec x y), (Z.gtb_spec y z), (Z.gtb_spec x z);
    try lia; try congruence.
  apply IH.
Qed.

Lemma lex_exit_lex_lt (a b : list Z) :
  lex_exit a b = Return true <-> lex_lt a b.
Proof.
  split.
  - revert b; induction a as [|x a IH]; intros [|y b]; simpl; try discriminate.
    destruct (Z.ltb_spec x y) as [Hlt|Hge].
    + intros _. exists [], x, y, a, b. auto.
    + destruct (Z.gtb_spec x y); [discriminate|].
      intros E. destruct (IH b E) as (p & u & v & a' & b' & -> & -> & Huv).
      assert (x = y) as -> by lia.
      exists (y :: p), u, v, a', b'. auto.
  - intros (p & u & v & a' & b' & -> & -> & Huv).
    induction p as [|w p IH]; simpl.
    + destruct (Z.ltb_spec u v); [reflexivity | lia].
    + rewrite Z.ltb_irrefl. destruct (Z.gtb_spec w w); [lia | exact IH].
Qed.

(** ** [Less] on two entries *)

Lemma cidr_less_ltb (ci cj : CIDR) : cidr_less ci cj = Some (cidr_ltb ci cj).
Proof.
  unfold cidr_less, cidr_ltb.
  destruct (Nat.ltb_spec (length (Ip ci)) (length (Ip cj))),
    (Z.ltb_spec (Z.of_nat (length (Ip ci))) (Z.of_nat (length (Ip cj))));
    try lia; [reflexivity|].
  destruct (Nat.ltb_spec (length (Ip cj)) (length (Ip ci))),
    (Z.gtb_spec (Z.of_nat (length (Ip ci))) (Z.of_nat (length (Ip cj))));
    try lia; [reflexivity|].
  rewrite (Less_loop_lex_exit (length (Ip ci)) 0)
    by (change (Z.to_nat 0) with 0%nat; rewrite ?drop_0; lia).
  change (Z.to_nat 0) with 0%nat. rewrite !drop_0.
  pose proof (lex_exit_not_panic (Ip ci) (Ip cj)).
  destruct (lex_exit (Ip ci) (Ip cj)); congruence.
Qed.

Lemma cidr_ltb_irrefl (c : CIDR) : cidr_ltb c c = false.
Proof.
  unfold cidr_ltb. rewrite Nat.ltb_irrefl, lex_exit_refl. apply Z.ltb_irrefl.
Qed.

Lemma cidr_eq (ci cj : CIDR) : Ip ci = Ip cj -> Prefix ci = Prefix cj -> ci = cj.
Proof. destruct ci, cj; simpl; congruence. Qed.

Lemma cidr_ltb_connex (ci cj : CIDR) :
  cidr_ltb ci cj = false -> cidr_ltb cj ci = false -> ci = cj.
Proof.
  unfold cidr_ltb.
  destruct (Nat.ltb_spec (length (Ip ci)) (length (Ip cj))); [discriminate|].
  destruct (Nat.ltb_spec (length (Ip cj)) (length (Ip ci))); [discriminate|].
  assert (length (Ip ci) = length (Ip cj)) as Hl by lia.
  pose proof (lex_exit_flip (Ip ci) (Ip cj) Hl) as F1.
  pose proof (lex_exit_flip (Ip cj) (Ip ci) (eq_sym Hl)) as F2.
  pose proof (lex_exit_fallthrough (Ip ci) (Ip cj) Hl) as F3.
  pose proof (lex_exit_not_panic (Ip ci) (Ip cj)).
  pose proof (lex_exit_not_panic (Ip cj) (Ip ci)).
  destruct (lex_exit (Ip ci) (Ip cj)) as [[]| |] eqn:E1;
    destruct (lex_exit (Ip cj) (Ip ci)) as [[]| |] eqn:E2;
    try congruence; intros Lt1 Lt2;
    try (destruct F1 as [F1 F1']; specialize (F1' eq_refl); congruence);
    try (destruct F2 as [F2 F2']; specialize (F2' eq_refl); congruence).
  apply cidr_eq; [auto|].
  destruct (Z.ltb_spec (Prefix ci) (Prefix cj)), (Z.ltb_spec (Prefix cj) (Prefix ci));
    try discriminate; lia.
Qed.

Lemma cidr_ltb_asym (ci cj : CIDR) :
  cidr_ltb ci cj = true -> cidr_ltb cj ci = false.
Proof.
  unfold cidr_ltb.
  destruct (Nat.ltb_spec (length (Ip ci)) (length (Ip cj))),
    (Nat.ltb_spec (length (Ip cj)) (length (Ip ci)));
    try lia; try congruence.
  assert (length (Ip ci) = length (Ip cj)) as Hl by lia.
  pose proof (lex_exit_flip (Ip ci) (Ip cj) Hl) as F1.
  pose proof (lex_exit_flip (Ip cj) (Ip ci) (eq_sym Hl)) as F2.
  pose proof (lex_exit_fallthrough (Ip ci) (Ip cj) Hl) as F3.
  pose proof (lex_exit_fallthrough (Ip cj) (Ip ci) (eq_sym Hl)) as F4.
  pose proof (lex_exit_refl (Ip ci)) as F5.
  pose proof (lex_exit_not_panic (Ip ci) (Ip cj)).
  pose proof (lex_exit_not_panic (Ip cj) (Ip ci)).
  destruct (lex_exit (Ip ci) (Ip cj)) as [[]| |] eqn:E1;
    destruct (lex_exit (Ip cj) (Ip ci)) as [[]| |] eqn:E2;
    try congruence; intros Lt1;
    try (destruct F1 as [F1 F1']; specialize (F1 eq_refl); congruence);
    try (destruct F2 as [F2 F2']; specialize (F2 eq_refl); congruence);
    try (specialize (F3 eq_refl); rewrite F3, E2 in F5; congruence);
    try (specialize (F4 eq_refl); rewrite <- F4, E1 in F5; congruence).
  destruct (Z.ltb_spec (Prefix ci) (Prefix cj)), (Z.ltb_spec (Prefix cj) (Prefix ci));
    try discriminate; try reflexivity; lia.
Qed.

Lemma cidr_ltb_true (ci cj : CIDR) :
  cidr_ltb ci cj = true <->
  (length (Ip ci) < length (Ip cj))%nat \/
  (length (Ip ci) = length (Ip cj) /\
   (lex_exit (Ip ci) (Ip cj) = Return true \/
    (Ip ci = Ip cj /\ Prefix ci < Prefix cj))).
Proof.
  unfold cidr_ltb.
  destruct (Nat.ltb_spec (length (Ip ci)) (length (Ip cj))) as [L1|L1];
    [split; auto|].
  destruct (Nat.ltb_spec (length (Ip cj)) (length (Ip ci))) as [L2|L2];
    [split; [discriminate | intros [?|[? _]]; lia]|].
  assert (length (Ip ci) = length (Ip cj)) as Hl by lia.
  pose proof (lex_exit_fallthrough (Ip ci) (Ip cj) Hl) as F.
  pose proof (lex_exit_not_panic (Ip ci) (Ip cj)) as NP.
  pose proof (lex_exit_refl (Ip ci)) as R.
  destruct (lex_exit (Ip ci) (Ip cj)) as [[]| |] eqn:E; try congruence.
  - split; auto.
  - split; [discriminate|].
    intros [?|[_ [?|[Eq _]]]]; [lia | discriminate |].
    rewrite <- Eq in E. congruence.
  - specialize (F eq_refl). rewrite Z.ltb_lt.
    split; [auto|]. intros [?|[_ [?|[_ ?]]]]; [lia | discriminate | auto].
Qed.

Lemma cidr_ltb_trans (a b c : CIDR) :
  cidr_ltb a b = true -> cidr_ltb b c = true -> cidr_ltb a c = true.
Proof.
  rewrite !cidr_ltb_true.
  intros [L1|[L1 H1]] [L2|[L2 H2]]; try (left; lia).
  right. split; [lia|].
  destruct H1 as [H1|[E1 P1]], H2 as [H2|[E2 P2]].
  - left. eapply lex_exit_trans; eauto.
  - left. rewrite <- E2. exact H1.
  - left. rewrite E1. exact H2.
  - right. split; [congruence | lia].
Qed.

Lemma cidr_ltb_precedes (ci cj : CIDR) :
  cidr_ltb ci cj = true <-> precedes ci cj.
Proof.
  rewrite cidr_ltb_true. unfold precedes. rewrite lex_exit_lex_lt. reflexivity.
Qed.

(** ** The order [not_after] of a sorted list *)

#[local] Instance not_after_antisymm : AntiSymm (=) not_after.
Proof. intros a b Hab Hba. apply cidr_ltb_connex; assumption. Qed.

#[local] Instance not_after_trans : Transitive not_after.
Proof.
  intros a b c Hab Hbc. unfold not_after in *.
  destruct (cidr_ltb c a) eqn:Hca; [|reflexivity].
  destruct (cidr_ltb a b) eqn:Ha.
  - pose proof (cidr_ltb_trans c a b Hca Ha). congruence.
  - rewrite (cidr_ltb_connex a b Ha Hab) in Hca. congruence.
Qed.

#[local] Instance not_after_total : Total not_after.
Proof.
  intros a b. unfold not_after.
  destruct (cidr_ltb b a) eqn:Hba; [right | left; reflexivity].
  apply cidr_ltb_asym. exact Hba.
Qed.

Lemma Leq_not_after (ci cj : CIDR) : Leq ci cj <-> not_after ci cj.
Proof.
  unfold Leq, not_after. rewrite cidr_less_ltb. split.
  - intros [Hlt|(_ & Hi & Hp)].
    + apply cidr_ltb_asym. congruence.
    + rewrite (cidr_eq ci cj Hi Hp). apply cidr_ltb_irrefl.
  - intros Hn. destruct (cidr_ltb ci cj) eqn:Hlt; [left; reflexivity|].
    right. rewrite (cidr_ltb_connex ci cj Hlt Hn). auto.
Qed.

Lemma index_cons {A} (x : A) (l : list A) (i : Z) :
  0 <= i -> index (x :: l) (i + 1) = index l i.
Proof.
  intros Hi. unfold index.
  destruct (Z.ltb_spec (i + 1) 0), (Z.ltb_spec i 0); try lia.
  replace (Z.to_nat (i + 1)) with (S (Z.to_nat i)) by lia. reflexivity.
Qed.

Lemma index_nat {A} (l : list A) (n : nat) : index l (Z.of_nat n) = l !! n.
Proof.
  unfold index. destruct (Z.ltb_spec (Z.of_nat n) 0); [lia|].
  rewrite Nat2Z.id. reflexivity.
Qed.

(** A list is ordered when [Less] is false from a later to an earlier index:
    what the standard sort promises of its result. *)
Lemma ordered_StronglySorted (l : CIDRList) :
  (forall i j : Z, 0 <= i -> i < j -> j < Len l -> Less l j i = Some false) ->
  StronglySorted not_after l.
Proof.
  induction l as [|x l IH]; intros Hord; constructor.
  - apply IH. intros i j Hi Hij Hj.
    specialize (Hord (i + 1) (j + 1)).
    unfold Less in *. rewrite !index_cons in Hord by lia.
    apply Hord; unfold Len in *; simpl length in *; lia.
  - apply Forall_lookup. intros n y Hy.
    assert (Less (x :: l) (Z.of_nat n + 1) 0 = Some false) as E.
    { apply Hord; [lia | lia |].
      apply lookup_lt_Some in Hy. unfold Len. simpl length. lia. }
    unfold Less in E. rewrite index_cons, index_nat, Hy in E by lia.
    change (index (x :: l) 0) with (Some x) in E.
    cbv beta iota in E. rewrite cidr_less_ltb in E.
    unfold not_after. congruence.
Qed.

Lemma StronglySorted_ordered (l : CIDRList) :
  StronglySorted not_after l ->
  forall i j : Z, 0 <= i -> i < j -> j < Len l -> Less l j i = Some false.
Proof.
  induction 1 as [|x l Hs IH Hx]; intros i j Hi Hij Hj.
  - unfold Len in Hj. simpl in Hj. lia.
  - unfold Len in Hj. simpl length in Hj.
    replace j with ((j - 1) + 1) by lia.
    unfold Less. rewrite index_cons by lia.
    destruct (index l (j - 1)) as [y|] eqn:Ey.
    + destruct (Z.eq_dec i 0) as [->|Hne].
      * change (index (x :: l) 0) with (Some x). cbv beta iota.
        rewrite cidr_less_ltb.
        f_equal. unfold index in Ey.
        destruct (j - 1 <? 0); [discriminate|].
        exact (Forall_lookup_1 _ _ _ _ Hx Ey).
      * replace i with ((i - 1) + 1) by lia. rewrite index_cons by lia.
        specialize (IH (i - 1) (j - 1)). unfold Less in IH. rewrite Ey in IH.
        apply IH; unfold Len; lia.
    + exfalso. unfold index in Ey.
      destruct (Z.ltb_spec (j - 1) 0); [lia|].
      apply lookup_ge_None in Ey. lia.
Qed.

(** ** The insertion sort meets the contract *)

Lemma insert_sorted_Permutation (c : CIDR) (l : CIDRList) :
  insert_sorted c l ≡ₚ c :: l.
Proof.
  induction l as [|d l IH]; simpl; [reflexivity|].
  destruct (cidr_less d c) as [[]|]; try reflexivity.
  rewrite IH. apply Permutation_swap.
Qed.

Lemma insertion_sort_Permutation (l : CIDRList) : insertion_sort l ≡ₚ l.
Proof.
  induction l as [|c l IH]; simpl; [reflexivity|].
  rewrite insert_sorted_Permutation, IH. reflexivity.
Qed.

Lemma insert_sorted_HdRel (d c : CIDR) (l : CIDRList) :
  not_after d c -> HdRel not_after d l -> HdRel not_after d (insert_sorted c l).
Proof.
  intros Hdc Hd. destruct l as [|e l]; simpl; [constructor; exact Hdc|].
  destruct (cidr_less e c) as [[]|]; constructor;
    solve [exact Hdc | inversion Hd; assumption].
Qed.

Lemma insert_sorted_Sorted (c : CIDR) (l : CIDRList) :
  Sorted not_after l -> Sorted not_after (insert_sorted c l).
Proof.
  induction l as [|d l IH]; intros Hs; simpl.
  - repeat constructor.
  - inversion Hs as [|? ? Hs' Hd]; subst.
    pose proof (cidr_less_ltb d c) as E.
    destruct (cidr_less d c) as [[]|] eqn:Hdc.
    + constructor; [apply IH; exact Hs'|].
      apply insert_sorted_HdRel; [|exact Hd].
      apply cidr_ltb_asym. congruence.
    + constructor; [exact Hs|]. constructor. unfold not_after. congruence.
    + discriminate.
Qed.

Lemma insertion_sort_Sorted (l : CIDRList) :
  StronglySorted not_after (insertion_sort l).
Proof.
  apply Sorted_StronglySorted; [apply _|].
  induction l as [|c l IH]; simpl; [constructor|].
  apply insert_sorted_Sorted. exact IH.
Qed.

(** ** CIDRList.Less *)

(** On the sample list: an IPv4 entry comes before an IPv6 entry, the /8
    before the /16 of the same address, an entry is not before itself, and
    an index outside the list panics. *)
Example Less_sample :
  Less sample_cidrs 1 2 = Some true /\
  Less sample_cidrs 2 1 = Some false /\
  Less sample_cidrs 0 1 = Some true /\
  Less sample_cidrs 1 1 = Some false /\
  Less sample_cidrs 0 3 = None /\
  Less sample_cidrs (-1) 0 = None.
Proof. repeat split. Qed.

Example Less_bytes_sample :
  cidr_less (mkCIDR [10; 0; 0; 0] 8) (mkCIDR [9; 255; 255; 255] 32) = Some false /\
  cidr_less (mkCIDR [10; 0; 0; 0] 24) (mkCIDR [10; 0; 1; 0] 8) = Some true.
Proof. split; reflexivity. Qed.

Example insertion_sort_sample :
  insertion_sort (reverse sample_cidrs) = sample_cidrs /\
  insertion_sort sample_cidrs = sample_cidrs.
Proof. split; reflexivity. Qed.

(** C3. For entries [ci] and [cj] at indices [i] and [j] of a CIDRList,
    [Less(i, j)] returns (it does not panic), and it returns true exactly when
    [ci] precedes [cj]: shorter address first, then the bytes compared
    lexicographically, then the smaller prefix length.  Entries equal in
    length, bytes and prefix compare false. *)
Theorem Less_precedes (l : CIDRList) (i j : Z) (ci cj : CIDR) :
  index l i = Some ci ->
  index l j = Some cj ->
  exists b : bool,
    Less l i j = Some b /\
    (b = true <-> precedes ci cj) /\
    (length (Ip ci) = length (Ip cj) -> Ip ci = Ip cj ->
     Prefix ci = Prefix cj -> b = false).
Proof.
  intros Hi Hj. exists (cidr_ltb ci cj). split; [|split].
  - unfold Less. rewrite Hi, Hj. apply cidr_less_ltb.
  - apply cidr_ltb_precedes.
  - intros _ HI HP. rewrite (cidr_eq ci cj HI HP). apply cidr_ltb_irrefl.
Qed.

(** The list 10.0.0.0/8, 10.0.0.0/16, ::/0 at indices 0 and 1. *)
Lemma Less_precedes_witness :
  exists b : bool,
    Less sample_cidrs 0 1 = Some b /\
    (b = true <-> precedes (mkCIDR [10; 0; 0; 0] 8) (mkCIDR [10; 0; 0; 0] 16)) /\
    (length [10; 0; 0; 0] = length [10; 0; 0; 0] ->
     [10; 0; 0; 0] = [10; 0; 0; 0] -> 8 = 16 -> b = false).
Proof.
  apply (Less_precedes sample_cidrs 0 1
           (mkCIDR [10; 0; 0; 0] 8) (mkCIDR [10; 0; 0; 0] 16));
    reflexivity.
Defined.

(** ** The order induced by [Less] and sorting *)

Section SortContract.

(** The standard sort, applied to a [CIDRList] through [Len], [Less] and
    [Swap]: it rearranges the list, and in its result [Less] is never true
    from a later index to an earlier one. *)
Variable sort : CIDRList -> CIDRList.
Hypothesis sort_Permutation : forall l : CIDRList, sort l ≡ₚ l.
Hypothesis sort_ordered : forall (l : CIDRList) (i j : Z),
  0 <= i -> i < j -> j < Len (sort l) -> Less (sort l) j i = Some false.

(** C4. The non-strict order induced by [Less] is a total order: reflexive,
    antisymmetric up to length, bytes and prefix, transitive, and any two
    entries are comparable.  Sorting a sorted CIDRList again gives the same
    list: sorting is idempotent. *)
Theorem Leq_total_order_sort_idempotent :
  (forall c : CIDR, Leq c c) /\
  (forall a b : CIDR, Leq a b -> Leq b a ->
     length (Ip a) = length (Ip b) /\ Ip a = Ip b /\ Prefix a = Prefix b) /\
  (forall a b c : CIDR, Leq a b -> Leq b c -> Leq a c) /\
  (forall a b : CIDR, Leq a b \/ Leq b a) /\
  (forall l : CIDRList, sort (sort l) = sort l).
Proof.
  repeat split.
  - right. auto.
  - rewrite !Leq_not_after in *.
    rewrite (anti_symm not_after a b); auto.
  - rewrite !Leq_not_after in *. rewrite (anti_symm not_after a b); auto.
  - rewrite !Leq_not_after in *. rewrite (anti_symm not_after a b); auto.
  - intros a b c. rewrite !Leq_not_after. apply not_after_trans.
  - intros a b. rewrite !Leq_not_after. apply not_after_total.
  - intros l. apply (StronglySorted_unique not_after).
    + apply ordered_StronglySorted, sort_ordered.
    + apply ordered_StronglySorted, sort_ordered.
    + apply sort_Permutation.
Qed.

End SortContract.

(** The insertion sort is one such sort. *)
Lemma Leq_total_order_sort_idempotent_witness :
  (forall c : CIDR, Leq c c) /\
  (forall a b : CIDR, Leq a b -> Leq b a ->
     length (Ip a) = length (Ip b) /\ Ip a = Ip b /\ Prefix a = Prefix b) /\
  (forall a b c : CIDR, Leq a b -> Leq b c -> Leq a c) /\
  (forall a b : CIDR, Leq a b \/ Leq b a) /\
  (forall l : CIDRList, insertion_sort (insertion_sort l) = insertion_sort l).
Proof.
  apply (Leq_total_order_sort_idempotent insertion_sort).
  - exact insertion_sort_Permutation.
  - intros l. apply StronglySorted_ordered, insertion_sort_Sorted.
Defined.

(** ** BuildCondition *)

Lemma collect_app {A} (xs ys : list (result error A)) :
  collect (xs ++ ys) = (a ← collect xs; b ← collect ys; Ok (a ++ b)).
Proof.
  induction xs as [|[x|e] xs IH]; simpl.
  - destruct (collect ys); reflexivity.
  - rewrite IH. destruct (collect xs); simpl; [|reflexivity].
    destruct (collect ys); reflexivity.
  - reflexivity.
Qed.

Lemma collect_Ok {A} (rs : list (result error A)) (cs : list A) :
  collect rs = Ok cs <-> rs = map Ok cs.
Proof.
  revert cs; induction rs as [|[x|e] rs IH]; intros cs; simpl.
  - split; [intros [= <-]; reflexivity | destruct cs; [reflexivity | discriminate]].
  - destruct (collect rs) as [l|e] eqn:E; simpl.
    + split.
      * intros [= <-]. simpl. f_equal. apply IH. reflexivity.
      * destruct cs as [|c cs]; [discriminate|]. intros [= -> Hrs].
        apply IH in Hrs. congruence.
    + split; [discriminate|].
      destruct cs as [|c cs]; [discriminate|]. intros [= -> Hrs].
      apply IH in Hrs. discriminate.
  - split; [discriminate | destruct cs; discriminate].
Qed.

Lemma collect_Err_elem {A} (rs : list (result error A)) (e : error) :
  collect rs = Err e -> Err e ∈ rs.
Proof.
  induction rs as [|[x|e'] rs IH]; simpl.
  - discriminate.
  - destruct (collect rs); simpl; [discriminate|].
    intros [= ->]. right. apply IH. reflexivity.
  - intros [= ->]. left.
Qed.

Lemma elem_collect_Err {A} (rs : list (result error A)) (e : error) :
  Err e ∈ rs -> exists e', collect rs = Err e'.
Proof.
  induction rs as [|[x|e'] rs IH]; intros Hin.
  - inversion Hin.
  - simpl. destruct IH as [e' He'].
    + apply elem_of_cons in Hin as [?|?]; [discriminate | assumption].
    + rewrite He'. eauto.
  - simpl. eauto.
Qed.

Section BuildConditionFacts.
Context `{Matchers}.

Lemma len_pos {A} (l : list A) :
  (len l >? 0) = match l with [] => false | _ :: _ => true end.
Proof. destruct l; reflexivity. Qed.

Lemma strlen_pos (s : string) :
  (strlen s >? 0) = match s with EmptyString => false | String _ _ => true end.
Proof. destruct s; reflexivity. Qed.

(** The error monad's laws at a known first result. *)
Lemma bind_Ok {A B} (a : A) (k : A -> result error B) : (x ← Ok a; k x) = k a.
Proof. reflexivity. Qed.

Lemma bind_Err {A B} (e : error) (k : A -> result error B) :
  (x ← Err e; k x) = Err e.
Proof. reflexivity. Qed.

(** Each block appends to the chain what its part of [implied] collects. *)

Lemma add_domain_collect (rr : RoutingRule.t) (conds : ConditionChan) :
  add_domain rr conds =
  match collect (of_list (RoutingRule.Domain rr) NewDomainMatcher) with
  | Ok cs => Ok (conds ++ cs)
  | Err e => Err (Base (newError "failed to build domain condition") e)
  end.
Proof.
  unfold add_domain, Add. rewrite len_pos.
  destruct (RoutingRule.Domain rr); simpl; [rewrite app_nil_r; reflexivity|].
  destruct (NewDomainMatcher _); reflexivity.
Qed.

Lemma reported_collect (rr : RoutingRule.t) (e : error) :
  reported rr e =
  match collect (of_list (RoutingRule.Domain rr) NewDomainMatcher) with
  | Ok _ => e
  | Err _ => Base (newError "failed to build domain condition") e
  end.
Proof.
  unfold reported.
  destruct (RoutingRule.Domain rr); simpl; [reflexivity|].
  destruct (NewDomainMatcher _); reflexivity.
Qed.

Lemma add_user_collect (rr : RoutingRule.t) :
  exists v : list Condition,
    collect
      (of_list (RoutingRule.UserEmail rr) (fun l => Ok (NewUserMatcher l))) = Ok v /\
    forall conds : ConditionChan, add_user rr conds = conds ++ v.
Proof.
  unfold add_user, Add. rewrite ?len_pos.
  destruct (RoutingRule.UserEmail rr);
    simpl; eexists; (split; [reflexivity|]); intros conds;
    rewrite ?app_nil_r; reflexivity.
Qed.

Lemma add_inbound_tag_collect (rr : RoutingRule.t) :
  exists v : list Condition,
    collect
      (of_list (RoutingRule.InboundTag rr)
         (fun l => Ok (NewInboundTagMatcher l))) = Ok v /\
    forall conds : ConditionChan, add_inbound_tag rr conds = conds ++ v.
Proof.
  unfold add_inbound_tag, Add. rewrite ?len_pos.
  destruct (RoutingRule.InboundTag rr);
    simpl; eexists; (split; [reflexivity|]); intros conds;
    rewrite ?app_nil_r; reflexivity.
Qed.

Lemma add_port_collect (rr : RoutingRule.t) :
  exists v : list Condition,
    collect
      (prefer
         (match RoutingRule.PortList rr with
          | Some pl => [Ok (NewPortMatcher pl)]
          | None => []
          end)
         (match RoutingRule.PortRange rr with
          | Some r => [Ok (NewPortMatcher (PortList.mk [r]))]
          | None => []
          end)) = Ok v /\
    forall conds : ConditionChan, add_port rr conds = conds ++ v.
Proof.
  unfold add_port, Add. rewrite ?len_pos.
  destruct (RoutingRule.PortList rr), (RoutingRule.PortRange rr);
    simpl; eexists; (split; [reflexivity|]); intros conds;
    rewrite ?app_nil_r; reflexivity.
Qed.

Lemma add_network_collect (rr : RoutingRule.t) :
  exists v : list Condition,
    collect
      (prefer
         (of_list (RoutingRule.Networks rr)
            (fun l => Ok (NewNetworkMatcher l)))
         (match RoutingRule.NetworkList rr with
          | Some nl => [Ok (NewNetworkMatcher (NetworkList.Network nl))]
          | None => []
          end)) = Ok v /\
    forall conds : ConditionChan, add_network rr conds = conds ++ v.
Proof.
  unfold add_network, Add. rewrite ?len_pos.
  destruct (RoutingRule.Networks rr), (RoutingRule.NetworkList rr);
    simpl; eexists; (split; [reflexivity|]); intros conds;
    rewrite ?app_nil_r; reflexivity.
Qed.

Lemma add_geoip_collect (rr : RoutingRule.t) (conds : ConditionChan) :
  add_geoip rr conds =
  (cs ← collect
          (prefer
             (of_list (RoutingRule.Geoip rr)
                (fun l => NewMultiGeoIPMatcher l false))
             (of_list (RoutingRule.Cidr rr)
                (fun l => NewMultiGeoIPMatcher [GeoIP.mk EmptyString l] false)));
   Ok (conds ++ cs)).
Proof.
  unfold add_geoip, Add. rewrite !len_pos.
  destruct (RoutingRule.Geoip rr), (RoutingRule.Cidr rr); simpl;
    rewrite ?app_nil_r; try reflexivity;
    destruct (NewMultiGeoIPMatcher _ _); reflexivity.
Qed.

Lemma add_source_geoip_collect (rr : RoutingRule.t) (conds : ConditionChan) :
  add_source_geoip rr conds =
  (cs ← collect
          (prefer
             (of_list (RoutingRule.SourceGeoip rr)
                (fun l => NewMultiGeoIPMatcher l true))
             (of_list (RoutingRule.SourceCidr rr)
                (fun l => NewMultiGeoIPMatcher [GeoIP.mk EmptyString l] true)));
   Ok (conds ++ cs)).
Proof.
  unfold add_source_geoip, Add. rewrite !len_pos.
  destruct (RoutingRule.SourceGeoip rr), (RoutingRule.SourceCidr rr); simpl;
    rewrite ?app_nil_r; try reflexivity;
    destruct (NewMultiGeoIPMatcher _ _); reflexivity.
Qed.

Lemma add_custom_geoip_collect (rr : RoutingRule.t) :
  exists v : list Condition,
    collect
      (of_list (RoutingRule.CustomGeoip rr)
         (fun l => Ok (NewCustomGeoIPMatcher l false))) = Ok v /\
    forall conds : ConditionChan, add_custom_geoip rr conds = conds ++ v.
Proof.
  unfold add_custom_geoip, Add. rewrite ?len_pos.
  destruct (RoutingRule.CustomGeoip rr);
    simpl; eexists; (split; [reflexivity|]); intros conds;
    rewrite ?app_nil_r; reflexivity.
Qed.

Lemma add_protocol_collect (rr : RoutingRule.t) :
  exists v : list Condition,
    collect
      (of_list (RoutingRule.Protocol rr) (fun l => Ok (NewProtocolMatcher l))) = Ok v /\
    forall conds : ConditionChan, add_protocol rr conds = conds ++ v.
Proof.
  unfold add_protocol, Add. rewrite ?len_pos.
  destruct (RoutingRule.Protocol rr);
    simpl; eexists; (split; [reflexivity|]); intros conds;
    rewrite ?app_nil_r; reflexivity.
Qed.

Lemma add_attributes_collect (rr : RoutingRule.t) (conds : ConditionChan) :
  add_attributes rr conds =
  (cs ← collect
          (match RoutingRule.Attributes rr with
           | EmptyString => []
           | String _ _ => [NewAttributeMatcher (RoutingRule.Attributes rr)]
           end);
   Ok (conds ++ cs)).
Proof.
  unfold add_attributes, Add. rewrite strlen_pos.
  destruct (RoutingRule.Attributes rr); simpl; rewrite ?app_nil_r;
    try reflexivity.
  destruct (NewAttributeMatcher _); reflexivity.
Qed.

Lemma add_application_collect (rr : RoutingRule.t) :
  exists v : list Condition,
    collect
      (of_list (RoutingRule.Application rr)
         (fun l => Ok (NewApplicationMatcher l))) = Ok v /\
    forall conds : ConditionChan, add_application rr conds = conds ++ v.
Proof.
  unfold add_application, Add. rewrite ?len_pos.
  destruct (RoutingRule.Application rr);
    simpl; eexists; (split; [reflexivity|]); intros conds;
    rewrite ?app_nil_r; reflexivity.
Qed.


(** A block that calls a fallible constructor: the next part of [implied]
    is collected on both sides, and an error ends both. *)
Ltac fallible_block lemma :=
  rewrite lemma, ?collect_app;
  match goal with
  | |- context [collect ?part ≫= _] => destruct (collect part) as [?cs|?e]
  end;
  rewrite ?bind_Ok, ?bind_Err;
  [| match goal with F : forall e, reported _ e = _ |- _ => rewrite F end;
     reflexivity].

(** A block that cannot fail: its part of [implied] collects to the values
    the block appends. *)
Ltac pure_block lemma rr :=
  let v := fresh "v" in
  let Ev := fresh "Ev" in
  let Eadd := fresh "Eadd" in
  destruct (lemma rr) as (v & Ev & Eadd);
  rewrite Eadd, ?collect_app, Ev, bind_Ok.

Lemma BuildCondition_collect (rr : RoutingRule.t) :
  BuildCondition rr =
  match collect (implied rr) with
  | Ok cs =>
      if len cs =? 0
      then Err (AtWarning (newError "this rule has no effective fields"))
      else Ok cs
  | Err e => Err (reported rr e)
  end.
Proof.
  pose proof (reported_collect rr) as F.
  cbv beta zeta delta [BuildCondition NewConditionChan implied].
  fallible_block add_domain_collect.
  pure_block add_user_collect rr.
  pure_block add_inbound_tag_collect rr.
  pure_block add_port_collect rr.
  pure_block add_network_collect rr.
  fallible_block add_geoip_collect.
  fallible_block add_source_geoip_collect.
  pure_block add_custom_geoip_collect rr.
  pure_block add_protocol_collect rr.
  fallible_block add_attributes_collect.
  pure_block add_application_collect rr.
  unfold ConditionChan_Len. rewrite <- !app_assoc. reflexivity.
Qed.

End BuildConditionFacts.

Section BuildConditionClaims.
Context `{Matchers}.

(** C1. A rule description with no matcher field populated makes
    [BuildCondition] return an error and no condition: the error that the
    rule has no effective fields, never a chain that matches everything. *)
Theorem BuildCondition_unpopulated (rr : RoutingRule.t) :
  unpopulated rr ->
  BuildCondition rr =
  Err (AtWarning (newError "this rule has no effective fields")).
Proof.
  intros (H1 & H2 & H3 & H4 & H5 & H6 & H7 & H8 & H9 & H10 & H11 & H12 & H13
          & H14 & H15).
  rewrite BuildCondition_collect. unfold implied.
  rewrite H1, H2, H3, H4, H5, H6, H7, H8, H9, H10, H11, H12, H13, H14, H15.
  reflexivity.
Qed.

Lemma implied_with_PortRange (rr : RoutingRule.t) (r : option PortRange.t) :
  RoutingRule.PortList rr <> None ->
  implied (with_PortRange rr r) = implied rr.
Proof.
  intros Hp. unfold implied, with_PortRange; simpl.
  destruct (RoutingRule.PortList rr); [reflexivity | contradiction].
Qed.

Lemma implied_with_NetworkList (rr : RoutingRule.t) (nl : option NetworkList.t) :
  RoutingRule.Networks rr <> [] ->
  implied (with_NetworkList rr nl) = implied rr.
Proof.
  intros Hp. unfold implied, with_NetworkList; simpl.
  destruct (RoutingRule.Networks rr); [contradiction | reflexivity].
Qed.

Lemma implied_with_Cidr (rr : RoutingRule.t) (cidr : CIDRList) :
  RoutingRule.Geoip rr <> [] ->
  implied (with_Cidr rr cidr) = implied rr.
Proof.
  intros Hp. unfold implied, with_Cidr; simpl.
  destruct (RoutingRule.Geoip rr); [contradiction | reflexivity].
Qed.

Lemma implied_with_SourceCidr (rr : RoutingRule.t) (cidr : CIDRList) :
  RoutingRule.SourceGeoip rr <> [] ->
  implied (with_SourceCidr rr cidr) = implied rr.
Proof.
  intros Hp. unfold implied, with_SourceCidr; simpl.
  destruct (RoutingRule.SourceGeoip rr); [contradiction | reflexivity].
Qed.

Lemma BuildCondition_same_implied (rr rr' : RoutingRule.t) :
  RoutingRule.Domain rr' = RoutingRule.Domain rr ->
  implied rr' = implied rr ->
  BuildCondition rr' = BuildCondition rr.
Proof.
  intros Hd Hi. rewrite !BuildCondition_collect, Hi.
  unfold reported. rewrite Hd. reflexivity.
Qed.

(** C2. [BuildCondition] succeeds with the chain [cs] exactly when [cs] is
    not empty and consists of the matchers implied by the populated fields,
    each built by its constructor, in the fixed order domain, user, inbound
    tag, port, network, destination GeoIP/CIDR, source GeoIP/CIDR, custom
    GeoIP, protocol, attribute script, application.  An explicit port list
    takes precedence over a port range, an explicit network list over a
    NetworkList, and named GeoIP lists over raw CIDR entries for destination
    and for source: the lower-precedence field then has no effect at all. *)
Theorem BuildCondition_implied (rr : RoutingRule.t) :
  (forall cs : ConditionChan,
     BuildCondition rr = Ok cs <-> cs <> [] /\ implied rr = map Ok cs) /\
  (forall r, RoutingRule.PortList rr <> None ->
     BuildCondition (with_PortRange rr r) = BuildCondition rr) /\
  (forall nl, RoutingRule.Networks rr <> [] ->
     BuildCondition (with_NetworkList rr nl) = BuildCondition rr) /\
  (forall cidr, RoutingRule.Geoip rr <> [] ->
     BuildCondition (with_Cidr rr cidr) = BuildCondition rr) /\
  (forall cidr, RoutingRule.SourceGeoip rr <> [] ->
     BuildCondition (with_SourceCidr rr cidr) = BuildCondition rr).
Proof.
  split; [|repeat split].
  - intros cs. rewrite BuildCondition_collect, <- collect_Ok.
    destruct (collect (implied rr)) as [cs'|e].
    + destruct cs' as [|c cs']; simpl.
      * split; [discriminate | intros [Hne [= <-]]; contradiction].
      * split; [intros [= <-]; split; [discriminate | reflexivity]|].
        intros [_ [= <-]]. reflexivity.
    + split; [discriminate | intros [_ ?]; discriminate].
  - intros r Hp. apply BuildCondition_same_implied;
      [reflexivity | apply implied_with_PortRange, Hp].
  - intros nl Hp. apply BuildCondition_same_implied;
      [reflexivity | apply implied_with_NetworkList, Hp].
  - intros cidr Hp. apply BuildCondition_same_implied;
      [reflexivity | apply implied_with_Cidr, Hp].
  - intros cidr Hp. apply BuildCondition_same_implied;
      [reflexivity | apply implied_with_SourceCidr, Hp].
Qed.

End BuildConditionClaims.

(** The empty description fails with the sample constructors. *)
Lemma BuildCondition_unpopulated_witness :
  @BuildCondition sample_matchers empty_rule =
  Err (AtWarning (newError "this rule has no effective fields")).
Proof.
  apply (@BuildCondition_unpopulated sample_matchers empty_rule).
  unfold unpopulated. simpl. repeat split; reflexivity.
Defined.

(** The fully populated description yields the eleven matchers in order,
    built from the higher-precedence field of each pair. *)
Lemma BuildCondition_implied_witness :
  @BuildCondition sample_matchers full_rule =
  Ok [ SampleDomain ["example.com"%string];
       SampleUser ["alice@example.com"%string];
       SampleInboundTag ["in-1"%string];
       SamplePort (PortList.mk [PortRange.mk 80 80; PortRange.mk 443 443]);
       SampleNetwork [2];
       SampleGeoIP [GeoIP.mk "cn" []] false;
       SampleGeoIP [GeoIP.mk "private" []] true;
       SampleCustomGeoIP ["ext:custom.dat:list"%string] false;
       SampleProtocol ["http"%string];
       SampleAttribute "attrs[':method'] == 'GET'";
       SampleApplication ["firefox"%string] ].
Proof.
  apply (proj1 (@BuildCondition_implied sample_matchers full_rule)).
  split; [discriminate | reflexivity].
Defined.

Section SubmatcherFailures.
Context `{Matchers}.

(** An element of the matchers implied by a list-valued field. *)
Lemma elem_of_of_list {A B} (l : list A) (build : list A -> B) (x : B) :
  x ∈ of_list l build <-> l <> [] /\ x = build l.
Proof.
  destruct l as [|a l]; simpl.
  - split; [intros Hin; inversion Hin | intros [Hne _]; contradiction].
  - rewrite list_elem_of_singleton. split; [intros ->; split; [discriminate | reflexivity]|].
    intros [_ ->]. reflexivity.
Qed.

Lemma elem_of_prefer {B} (preferred fallback : list B) (x : B) :
  x ∈ prefer preferred fallback <->
  x ∈ preferred \/ (preferred = [] /\ x ∈ fallback).
Proof.
  destruct preferred as [|p ps]; simpl.
  - split; [auto | intros [Hin|[_ Hin]]; [inversion Hin | exact Hin]].
  - split; [auto | intros [Hin|[Hnil _]]; [exact Hin | discriminate]].
Qed.

(** The failures among the implied matchers are the submatcher failures. *)
Lemma implied_Err (rr : RoutingRule.t) (e : error) :
  Err e ∈ implied rr <-> submatcher_fails rr e.
Proof.
  unfold implied. rewrite !elem_of_app, !elem_of_prefer, !elem_of_of_list.
  split.
  - intros [[Hne He]|[[_ ?]|[[_ ?]|[Hport|[Hnet|[Hgeo|[Hsrc|[[_ ?]|[[_ ?]|[Hattr|[_ ?]]]]]]]]]]];
      try discriminate.
    + apply fails_domain; auto.
    + exfalso. destruct (RoutingRule.PortList rr), (RoutingRule.PortRange rr);
        destruct Hport as [Hin|[_ Hin]];
        try apply list_elem_of_singleton in Hin; try discriminate;
        inversion Hin.
    + exfalso. destruct Hnet as [[_ ?]|[_ Hin]]; [discriminate|].
      destruct (RoutingRule.NetworkList rr);
        try apply list_elem_of_singleton in Hin; try discriminate;
        inversion Hin.
    + destruct Hgeo as [[Hne He]|[Hnil [Hne He]]].
      * apply fails_geoip; auto.
      * apply fails_cidr; auto.
        destruct (RoutingRule.Geoip rr); [reflexivity | discriminate].
    + destruct Hsrc as [[Hne He]|[Hnil [Hne He]]].
      * apply fails_source_geoip; auto.
      * apply fails_source_cidr; auto.
        destruct (RoutingRule.SourceGeoip rr); [reflexivity | discriminate].
    + destruct (RoutingRule.Attributes rr) eqn:Ea; [inversion Hattr|].
      apply list_elem_of_singleton in Hattr.
      apply fails_attributes; rewrite Ea; [discriminate | auto].
  - intros [Hne He|Hne He|Hnil Hne He|Hne He|Hnil Hne He|Hne He].
    + left. auto.
    + do 5 right. left. left. auto.
    + do 5 right. left. right. rewrite Hnil. auto.
    + do 6 right. left. left. auto.
    + do 6 right. left. right. rewrite Hnil. auto.
    + do 9 right. left.
      destruct (RoutingRule.Attributes rr); [contradiction|].
      apply list_elem_of_singleton. auto.
Qed.

(** C6. When a submatcher constructor that [BuildCondition] has to call
    fails (the domain matcher on a malformed pattern, the GeoIP matcher for
    destination or source, the attribute matcher on a malformed expression),
    the build itself fails: [BuildCondition] returns an error and no
    condition, and the error is that of a failed submatcher, the domain
    failure wrapped in a message naming the domain condition.  A build that
    succeeds has skipped no failure. *)
Theorem BuildCondition_submatcher_fails (rr : RoutingRule.t) :
  (forall e : error, submatcher_fails rr e ->
     exists e' : error,
       BuildCondition rr = Err e' /\
       exists e0 : error, submatcher_fails rr e0 /\ reports rr e0 e') /\
  (forall e : error,
     RoutingRule.Domain rr <> [] ->
     NewDomainMatcher (RoutingRule.Domain rr) = Err e ->
     BuildCondition rr =
     Err (Base (newError "failed to build domain condition") e)) /\
  (forall cs : ConditionChan,
     BuildCondition rr = Ok cs -> forall e : error, ~ submatcher_fails rr e).
Proof.
  assert (forall e, submatcher_fails rr e ->
          exists e0, collect (implied rr) = Err e0) as Hfail.
  { intros e He. apply (elem_collect_Err _ e), implied_Err, He. }
  split; [|split].
  - intros e He. destruct (Hfail e He) as [e0 He0].
    exists (reported rr e0). split.
    + rewrite BuildCondition_collect, He0. reflexivity.
    + exists e0. split; [apply implied_Err, collect_Err_elem, He0|].
      unfold reports, reported.
      destruct (RoutingRule.Domain rr) as [|d ds] eqn:Ed; [left; reflexivity|].
      destruct (NewDomainMatcher (d :: ds)) as [m|ed] eqn:En;
        [left; reflexivity|].
      right. split; [|reflexivity].
      unfold implied in He0. rewrite Ed in He0. simpl in He0.
      rewrite En in He0. simpl in He0. congruence.
  - intros e Hne He. rewrite BuildCondition_collect.
    unfold implied, reported.
    destruct (RoutingRule.Domain rr) as [|d ds]; [contradiction|].
    simpl. rewrite He. reflexivity.
  - intros cs Hok e He. destruct (Hfail e He) as [e0 He0].
    rewrite BuildCondition_collect, He0 in Hok. discriminate.
Qed.

End SubmatcherFailures.

(** A malformed domain pattern fails the build of a rule that also names a
    user, with the wrapped error of the domain matcher. *)
Lemma BuildCondition_submatcher_fails_witness :
  @BuildCondition sample_matchers bad_domain_rule =
  Err (Base (newError "failed to build domain condition")
         (External "missing closing )")).
Proof.
  apply (proj1 (proj2 (@BuildCondition_submatcher_fails sample_matchers
                         bad_domain_rule))).
  - discriminate.
  - reflexivity.
Defined.

(** ** Rule.GetTag *)

Section GetTagClaims.
Context `{Matchers} {Manager LatencyStrategy World : Type}.
Variable PickOutbound :
  Balancer.t Manager LatencyStrategy -> World ->
  (string * option error) * World.

(** C5. [GetTag] resolves through the balancer when the rule has one: it
    returns exactly what [PickOutbound] of that balancer returns, and leaves
    the world as that call leaves it.  Otherwise it returns the fixed tag of
    the rule with a nil error and touches nothing.  So exactly one of the two
    is the effective target. *)
Theorem GetTag_resolves (r : Rule.t Manager LatencyStrategy) (w : World) :
  (forall b, Rule.Balancer r = Some b ->
     GetTag PickOutbound r w = PickOutbound b w) /\
  (Rule.Balancer r = None ->
     GetTag PickOutbound r w = ((Rule.Tag r, None), w)).
Proof.
  unfold GetTag. split.
  - intros b ->. reflexivity.
  - intros ->. reflexivity.
Qed.

(** C9. [GetTag] does not require that exactly one of tag and balancer is
    set.  With a balancer and a non-empty tag, the tag is ignored: whatever
    the tag, the pick of the balancer is returned.  With neither, the empty
    string is returned with a nil error. *)
Theorem GetTag_both_or_neither (w : World) (cond : ConditionChan) :
  (forall (b : Balancer.t Manager LatencyStrategy) (tag : string),
     tag <> EmptyString ->
     GetTag PickOutbound (Rule.mk _ Manager LatencyStrategy tag (Some b) cond) w
     = PickOutbound b w) /\
  GetTag PickOutbound
    (Rule.mk _ Manager LatencyStrategy EmptyString None cond) w
  = ((EmptyString, None), w).
Proof. split; reflexivity. Qed.

End GetTagClaims.

(** With the sample pick: the rule with a balancer resolves to "out-a" and
    counts a pick, the rule with only a tag returns it. *)
Lemma GetTag_resolves_witness :
  GetTag sample_PickOutbound both_rule 0%nat = (("out-a"%string, None), 1%nat) /\
  GetTag sample_PickOutbound tag_rule 0%nat = (("direct"%string, None), 0%nat).
Proof.
  split.
  - apply (proj1 (GetTag_resolves sample_PickOutbound both_rule 0%nat)
             sample_balancer).
    reflexivity.
  - apply (proj2 (GetTag_resolves sample_PickOutbound tag_rule 0%nat)).
    reflexivity.
Defined.

Lemma GetTag_both_or_neither_witness :
  GetTag sample_PickOutbound both_rule 0%nat = (("out-a"%string, None), 1%nat) /\
  GetTag sample_PickOutbound neither_rule 0%nat = ((EmptyString, None), 0%nat).
Proof.
  split.
  - apply (proj1 (@GetTag_both_or_neither sample_matchers _ _ _
                    sample_PickOutbound 0%nat [SampleNetwork [2]])
             sample_balancer "direct"%string).
    discriminate.
  - apply (proj2 (@GetTag_both_or_neither sample_matchers _ _ _
                    sample_PickOutbound 0%nat [SampleNetwork [2]])).
Defined.

(** ** BalancingRule.Build *)

Section BuildClaims.
Context {Manager LatencyStrategy : Type}.
Variable BalancingRule_Random BalancingRule_Latency : Z.
Variable NewLatencyStrategy :
  Manager -> list string -> Z -> Z -> Z -> Z -> Z -> string -> string ->
  option LatencyStrategy.

(** C7. [Build] returns a balancer whose selectors are the outbound
    selectors of the description and which holds the registry handle it was
    given.  Its strategy is a [RandomStrategy] when the kind is Random; when
    the kind is Latency it is the latency strategy that the constructor built
    from the selectors and the tuning parameters of the description: total
    measures, interval, delay and timeout in seconds, tolerance in
    milliseconds, probe target and probe content. *)
Theorem Build_balancer (br : BalancingRule.t) (ohm : Manager) :
  BalancingRule_Random <> BalancingRule_Latency ->
  exists b : Balancer.t Manager LatencyStrategy,
    Build BalancingRule_Random BalancingRule_Latency NewLatencyStrategy br ohm
    = (Some b, None) /\
    Balancer.selectors b = BalancingRule.OutboundSelector br /\
    Balancer.ohm b = ohm /\
    (BalancingRule.BalancingStrategy br = BalancingRule_Random ->
     Balancer.strategy b = Some (OfRandom mkRandomStrategy)) /\
    (BalancingRule.BalancingStrategy br = BalancingRule_Latency ->
     forall ls : LatencyStrategy,
       latency_of NewLatencyStrategy br ohm = Some ls ->
       Balancer.strategy b = Some (OfLatency ls)).
Proof.
  intros Hne. eexists. split; [reflexivity|]. simpl.
  split; [reflexivity|]. split; [reflexivity|]. split.
  - intros ->. rewrite Z.eqb_refl.
    destruct (Z.eqb_spec BalancingRule_Random BalancingRule_Latency);
      [contradiction | reflexivity].
  - intros -> ls Hls. rewrite Z.eqb_refl. unfold latency_of in Hls.
    rewrite Hls. reflexivity.
Qed.

(** C8. [Build] never returns an error: for every description it returns a
    balancer and a nil error.  For a kind that is neither Random nor Latency,
    and for the kind Latency when the constructor yields nil, the strategy of
    that balancer is nil. *)
Theorem Build_no_error (br : BalancingRule.t) (ohm : Manager) :
  exists b : Balancer.t Manager LatencyStrategy,
    Build BalancingRule_Random BalancingRule_Latency NewLatencyStrategy br ohm
    = (Some b, None) /\
    (BalancingRule.BalancingStrategy br <> BalancingRule_Random ->
     BalancingRule.BalancingStrategy br <> BalancingRule_Latency ->
     Balancer.strategy b = None) /\
    (BalancingRule_Random <> BalancingRule_Latency ->
     BalancingRule.BalancingStrategy br = BalancingRule_Latency ->
     latency_of NewLatencyStrategy br ohm = None ->
     Balancer.strategy b = None).
Proof.
  eexists. split; [reflexivity|]. simpl. split.
  - intros H1 H2.
    destruct (Z.eqb_spec (BalancingRule.BalancingStrategy br) BalancingRule_Random);
      [contradiction|].
    destruct (Z.eqb_spec (BalancingRule.BalancingStrategy br) BalancingRule_Latency);
      [contradiction | reflexivity].
  - intros Hne -> Hnil. rewrite Z.eqb_refl. unfold latency_of in Hnil.
    rewrite Hnil.
    destruct (Z.eqb_spec BalancingRule_Latency BalancingRule_Random);
      [congruence | reflexivity].
Qed.

End BuildClaims.

(** The Random rule and the Latency rule over the sample registry. *)
Lemma Build_balancer_witness :
  (exists b : Balancer.t sample_manager sample_latency,
     Build 0 1 sample_NewLatencyStrategy random_rule ["out-a"%string]
     = (Some b, None) /\
     Balancer.selectors b = ["out-"%string] /\
     Balancer.ohm b = ["out-a"%string] /\
     Balancer.strategy b = Some (OfRandom mkRandomStrategy)) /\
  (exists b : Balancer.t sample_manager sample_latency,
     Build 0 1 sample_NewLatencyStrategy latency_rule ["out-a"%string]
     = (Some b, None) /\
     Balancer.strategy b =
     Some (OfLatency (mkSampleLatency 5 60000000000 10000000000 3000000000
                        50000000 "www.example.com:443" "ping"))).
Proof.
  split.
  - destruct (Build_balancer 0 1 sample_NewLatencyStrategy random_rule
                ["out-a"%string]) as (b & Hb & Hs & Ho & Hr & _);
      [discriminate|].
    exists b. repeat split; auto.
  - destruct (Build_balancer 0 1 sample_NewLatencyStrategy latency_rule
                ["out-a"%string]) as (b & Hb & _ & _ & _ & Hl);
      [discriminate|].
    exists b. split; [exact Hb|]. apply Hl; reflexivity.
Defined.

(** The unknown kind, and the Latency rule that asks for no measure. *)
Lemma Build_no_error_witness :
  (exists b : Balancer.t sample_manager sample_latency,
     Build 0 1 sample_NewLatencyStrategy unknown_kind_rule ["out-a"%string]
     = (Some b, None) /\
     Balancer.strategy b = None) /\
  (exists b : Balancer.t sample_manager sample_latency,
     Build 0 1 sample_NewLatencyStrategy latency_rule_no_measure
       ["out-a"%string]
     = (Some b, None) /\
     Balancer.strategy b = None).
Proof.
  split.
  - destruct (Build_no_error 0 1 sample_NewLatencyStrategy unknown_kind_rule
                ["out-a"%string]) as (b & Hb & Hu & _).
    exists b. split; [exact Hb|]. apply Hu; discriminate.
  - destruct (Build_no_error 0 1 sample_NewLatencyStrategy
                latency_rule_no_measure ["out-a"%string]) as (b & Hb & _ & Hn).
    exists b. split; [exact Hb|]. apply Hn; [discriminate | | ]; reflexivity.
Defined.

(** ** Generated getters *)

(** C10. Every getter of the generated transport configuration messages
    ([TransportConfig], [StreamConfig], [ProxyConfig], [SocketConfig]) is
    total on a nil receiver: it returns the zero value of its field, such as
    [TransportProtocol_TCP] for [GetProtocol], the empty string for [GetTag]
    and 0 for [GetMark]. *)
Theorem getters_nil_receiver (TypedMessage : Type) :
  Internet.TransportConfig.GetProtocol (TypedMessage := TypedMessage) None
    = Internet.TransportProtocol_TCP /\
  Internet.TransportConfig.GetProtocolName (TypedMessage := TypedMessage) None
    = EmptyString /\
  Internet.TransportConfig.GetSettings (TypedMessage := TypedMessage) None
    = None /\
  Internet.StreamConfig.GetProtocol (TypedMessage := TypedMessage) None
    = Internet.TransportProtocol_TCP /\
  Internet.StreamConfig.GetProtocolName (TypedMessage := TypedMessage) None
    = EmptyString /\
  Internet.StreamConfig.GetTransportSettings (TypedMessage := TypedMessage) None
    = [] /\
  Internet.StreamConfig.GetSecurityType (TypedMessage := TypedMessage) None
    = EmptyString /\
  Internet.StreamConfig.GetSecuritySettings (TypedMessage := TypedMessage) None
    = [] /\
  Internet.StreamConfig.GetSocketSettings (TypedMessage := TypedMessage) None
    = None /\
  Internet.ProxyConfig.GetTag None = EmptyString /\
  Internet.SocketConfig.GetMark None = 0 /\
  Internet.SocketConfig.GetTfo None = Internet.SocketConfig_AsIs /\
  Internet.SocketConfig.GetTproxy None = Internet.SocketConfig_Off /\
  Internet.SocketConfig.GetReceiveOriginalDestAddress None = false /\
  Internet.SocketConfig.GetBindAddress None = [] /\
  Internet.SocketConfig.GetBindPort None = 0 /\
  Internet.SocketConfig.GetTos None = 0.
Proof. repeat split. Qed.

(** * Further properties *)

(** ** Bounds of [Less] and [Swap] *)

Lemma index_None {A} (l : list A) (i : Z) :
  index l i = None <-> ~ (0 <= i < Z.of_nat (length l)).
Proof.
  unfold index. destruct (Z.ltb_spec i 0) as [Hneg|Hpos].
  - split; [lia | reflexivity].
  - rewrite lookup_ge_None. lia.
Qed.

Lemma index_Some_range {A} (l : list A) (i : Z) (x : A) :
  index l i = Some x -> 0 <= i < Z.of_nat (length l).
Proof.
  intros Hx. destruct (decide (0 <= i < Z.of_nat (length l))) as [|Hn]; [done|].
  apply index_None in Hn. congruence.
Qed.

Lemma index_in_range {A} (l : list A) (i : Z) :
  0 <= i < Z.of_nat (length l) -> exists x, index l i = Some x.
Proof.
  intros Hi. destruct (index l i) as [x|] eqn:E; [eauto|].
  apply index_None in E. contradiction.
Qed.


(** X2. [Swap] panics exactly when one of its two indices is outside the
    list, and otherwise keeps the length of the list. *)
Theorem Swap_panics_iff (l : CIDRList) (i j : Z) :
  (Swap l i j = None <-> ~ in_range l i j) /\
  (forall l' : CIDRList, Swap l i j = Some l' -> Len l' = Len l).
Proof.
  unfold Swap, in_range, Len. split.
  - destruct (index l i) as [ci|] eqn:Ei.
    + destruct (index l j) as [cj|] eqn:Ej.
      * apply index_Some_range in Ei, Ej. split; [discriminate | tauto].
      * apply index_None in Ej. tauto.
    + apply index_None in Ei. tauto.
  - intros l'. destruct (index l i), (index l j); try discriminate.
    intros [= <-]. rewrite !length_insert. reflexivity.
Qed.

(** ** What [Swap] does to the entries *)

Lemma Swap_lookup (l l' : CIDRList) (i j : Z) :
  Swap l i j = Some l' ->
  0 <= i /\ 0 <= j /\
  (Z.to_nat i < length l)%nat /\ (Z.to_nat j < length l)%nat /\
  forall k : nat,
    l' !! k =
    if decide (k = Z.to_nat j) then l !! Z.to_nat i
    else if decide (k = Z.to_nat i) then l !! Z.to_nat j
    else l !! k.
Proof.
  unfold Swap.
  destruct (index l i) as [ci|] eqn:Ei; [|discriminate].
  destruct (index l j) as [cj|] eqn:Ej; [|discriminate].
  intros [= <-].
  pose proof (index_Some_range _ _ _ Ei) as Ri.
  pose proof (index_Some_range _ _ _ Ej) as Rj.
  unfold index in Ei, Ej.
  destruct (Z.ltb_spec i 0); [lia|]. destruct (Z.ltb_spec j 0); [lia|].
  repeat split; try lia.
  intros k. rewrite !list_lookup_insert, !length_insert.
  destruct (decide (k = Z.to_nat j)) as [->|Hkj].
  - rewrite decide_True by (split; [reflexivity | lia]). congruence.
  - rewrite decide_False by (intros [? _]; congruence).
    destruct (decide (k = Z.to_nat i)) as [->|Hki].
    + rewrite decide_True by (split; [reflexivity | lia]). congruence.
    + rewrite decide_False by (intros [? _]; congruence). reflexivity.
Qed.

Lemma Swap_length (l l' : CIDRList) (i j : Z) :
  Swap l i j = Some l' -> length l' = length l.
Proof.
  unfold Swap. destruct (index l i), (index l j); try discriminate.
  intros [= <-]. rewrite !length_insert. reflexivity.
Qed.

(** X3. [Swap] only rearranges: its result is a permutation of the list, so
    a sort that moves entries through [Swap] alone loses and invents none. *)
Theorem Swap_Permutation (l l' : CIDRList) (i j : Z) :
  Swap l i j = Some l' -> l' ≡ₚ l.
Proof.
  intros Hs. pose proof (Swap_length l l' i j Hs) as Hlen.
  destruct (Swap_lookup l l' i j Hs) as (Hi & Hj & Li & Lj & Hk).
  apply Permutation_inj. split; [exact Hlen|].
  exists (fun k => if decide (k = Z.to_nat j) then Z.to_nat i
                   else if decide (k = Z.to_nat i) then Z.to_nat j else k).
  split.
  - intros a b. repeat case_decide; intros; subst; congruence.
  - intros k. rewrite Hk. repeat case_decide; reflexivity.
Qed.

(** X4. After [Swap(i, j)] the entry at [i] is the old entry at [j], the
    entry at [j] the old entry at [i], every other entry is where it was,
    and [Less(i, j)] answers what [Less(j, i)] answered before. *)
Theorem Swap_exchanges (l l' : CIDRList) (i j : Z) :
  Swap l i j = Some l' ->
  index l' i = index l j /\
  index l' j = index l i /\
  (forall k : Z, k <> i -> k <> j -> index l' k = index l k) /\
  Less l' i j = Less l j i.
Proof.
  intros Hs.
  destruct (Swap_lookup l l' i j Hs) as (Hi & Hj & Li & Lj & Hk).
  assert (index l' i = index l j) as E1.
  { unfold index. destruct (Z.ltb_spec i 0), (Z.ltb_spec j 0); try lia.
    rewrite Hk. repeat case_decide; congruence. }
  assert (index l' j = index l i) as E2.
  { unfold index. destruct (Z.ltb_spec i 0), (Z.ltb_spec j 0); try lia.
    rewrite Hk. repeat case_decide; congruence. }
  repeat split; try assumption.
  - intros k Hki Hkj. unfold index. destruct (Z.ltb_spec k 0); [reflexivity|].
    rewrite Hk. repeat case_decide; try reflexivity; lia.
  - unfold Less. rewrite E1, E2. reflexivity.
Qed.

(** X5. [Swap] undoes itself: swapping the same two indices again gives the
    list back.  Swapping an index with itself changes nothing. *)
Theorem Swap_involutive (l l' : CIDRList) (i j : Z) :
  Swap l i j = Some l' ->
  Swap l' i j = Some l /\ (i = j -> l' = l).
Proof.
  intros Hs.
  destruct (Swap_lookup l l' i j Hs) as (Hi & Hj & Li & Lj & Hk).
  pose proof (Swap_length l l' i j Hs) as Hlen.
  split.
  - destruct (Swap l' i j) as [l''|] eqn:Hs'.
    + f_equal. apply list_eq. intros k.
      destruct (Swap_lookup l' l'' i j Hs') as (_ & _ & _ & _ & Hk').
      rewrite Hk', !Hk. repeat case_decide; congruence.
    + exfalso. unfold Swap in Hs'.
      destruct (index_in_range l' i) as [ci Ei]; [lia|].
      destruct (index_in_range l' j) as [cj Ej]; [lia|].
      rewrite Ei, Ej in Hs'. discriminate.
  - intros ->. apply list_eq. intros k. rewrite Hk.
    repeat case_decide; congruence.
Qed.


Lemma Swap_panics_iff_witness :
  Swap sample_cidrs (-1) 0 = None /\
  Len (<[2%nat := mkCIDR [10; 0; 0; 0] 8]>
         (<[0%nat := mkCIDR [0; 0; 0; 0; 0; 0; 0; 0; 0; 0; 0; 0; 0; 0; 0; 0] 0]>
            sample_cidrs)) = Len sample_cidrs.
Proof.
  split.
  - apply (proj1 (Swap_panics_iff sample_cidrs (-1) 0)).
    unfold in_range. lia.
  - apply (proj2 (Swap_panics_iff sample_cidrs 0 2)). reflexivity.
Defined.

Lemma Swap_Permutation_witness :
  [ mkCIDR [0; 0; 0; 0; 0; 0; 0; 0; 0; 0; 0; 0; 0; 0; 0; 0] 0;
    mkCIDR [10; 0; 0; 0] 16;
    mkCIDR [10; 0; 0; 0] 8 ] ≡ₚ sample_cidrs.
Proof. apply (Swap_Permutation sample_cidrs _ 0 2). reflexivity. Defined.

Lemma Swap_exchanges_witness :
  let l' := [ mkCIDR [10; 0; 0; 0] 16; mkCIDR [10; 0; 0; 0] 8;
              mkCIDR [0; 0; 0; 0; 0; 0; 0; 0; 0; 0; 0; 0; 0; 0; 0; 0] 0 ] in
  index l' 0 = index sample_cidrs 1 /\
  index l' 1 = index sample_cidrs 0 /\
  (forall k : Z, k <> 0 -> k <> 1 -> index l' k = index sample_cidrs k) /\
  Less l' 0 1 = Less sample_cidrs 1 0.
Proof. apply (Swap_exchanges sample_cidrs _ 0 1). reflexivity. Defined.

Lemma Swap_involutive_witness :
  Swap [ mkCIDR [10; 0; 0; 0] 16; mkCIDR [10; 0; 0; 0] 8;
         mkCIDR [0; 0; 0; 0; 0; 0; 0; 0; 0; 0; 0; 0; 0; 0; 0; 0] 0 ] 0 1
  = Some sample_cidrs.
Proof.
  apply (proj1 (Swap_involutive sample_cidrs _ 0 1 eq_refl)).
Defined.

(** ** [Less] as a strict order, and sorted lists *)

(** X6. On the positions of a list [Less] is a strict order: no position is
    before itself, [Less] never holds both ways, it is transitive, and two
    positions of which neither is before the other hold entries with the same
    bytes and the same prefix. *)
Theorem Less_strict_order (l : CIDRList) (i j k : Z) (ci cj ck : CIDR) :
  index l i = Some ci -> index l j = Some cj -> index l k = Some ck ->
  Less l i i = Some false /\
  (Less l i j = Some true -> Less l j i = Some false) /\
  (Less l i j = Some true -> Less l j k = Some true -> Less l i k = Some true) /\
  (Less l i j = Some false -> Less l j i = Some false -> ci = cj).
Proof.
  intros Hi Hj Hk. unfold Less. rewrite Hi, Hj, Hk, !cidr_less_ltb.
  repeat split.
  - rewrite cidr_ltb_irrefl. reflexivity.
  - intros [= E]. rewrite (cidr_ltb_asym _ _ E). reflexivity.
  - intros [= E1] [= E2]. rewrite (cidr_ltb_trans _ _ _ E1 E2). reflexivity.
  - intros [= E1] [= E2]. apply cidr_ltb_connex; assumption.
Qed.

Lemma Less_strict_order_witness :
  Less sample_cidrs 0 0 = Some false /\
  (Less sample_cidrs 0 1 = Some true -> Less sample_cidrs 1 0 = Some false) /\
  (Less sample_cidrs 0 1 = Some true -> Less sample_cidrs 1 2 = Some true ->
   Less sample_cidrs 0 2 = Some true) /\
  (Less sample_cidrs 0 1 = Some false -> Less sample_cidrs 1 0 = Some false ->
   mkCIDR [10; 0; 0; 0] 8 = mkCIDR [10; 0; 0; 0] 16).
Proof.
  apply (Less_strict_order sample_cidrs 0 1 2 _ _
           (mkCIDR [0; 0; 0; 0; 0; 0; 0; 0; 0; 0; 0; 0; 0; 0; 0; 0] 0));
    reflexivity.
Defined.

Lemma ordered_lookup (l : CIDRList) (n m : nat) (a b : CIDR) :
  ordered l -> (n < m)%nat -> l !! n = Some a -> l !! m = Some b ->
  not_after a b.
Proof.
  intros Ho Hnm Ha Hb.
  pose proof (Ho (Z.of_nat n) (Z.of_nat m)) as E.
  unfold Less in E. rewrite !index_nat, Ha, Hb, cidr_less_ltb in E.
  apply lookup_lt_Some in Hb. unfold Len in E.
  unfold not_after. assert (Some (cidr_ltb b a) = Some false) by (apply E; lia).
  congruence.
Qed.

Lemma index_Some_nat {A} (l : list A) (i : Z) (x : A) :
  index l i = Some x -> 0 <= i /\ l !! Z.to_nat i = Some x.
Proof.
  unfold index. destruct (Z.ltb_spec i 0); [discriminate|]. auto.
Qed.

(** X7. A sorted list is grouped by address length: an earlier entry never
    has a longer address than a later one, so every IPv4 entry comes before
    every IPv6 entry. *)
Theorem ordered_by_length (l : CIDRList) (i j : Z) (ci cj : CIDR) :
  ordered l -> i < j ->
  index l i = Some ci -> index l j = Some cj ->
  (length (Ip ci) <= length (Ip cj))%nat.
Proof.
  intros Ho Hij Hi Hj.
  apply index_Some_nat in Hi as [Hi0 Hi], Hj as [Hj0 Hj].
  assert (not_after ci cj) as Hn
    by (apply (ordered_lookup l (Z.to_nat i) (Z.to_nat j)); auto; lia).
  unfold not_after in Hn.
  destruct (Nat.le_gt_cases (length (Ip ci)) (length (Ip cj))) as [|Hgt];
    [assumption|].
  assert (cidr_ltb cj ci = true) by (apply cidr_ltb_true; left; exact Hgt).
  congruence.
Qed.

Lemma sample_cidrs_ordered : ordered sample_cidrs.
Proof.
  unfold ordered. apply StronglySorted_ordered.
  repeat constructor.
Qed.

Lemma ordered_by_length_witness :
  (length [10; 0; 0; 0] <=
   length [0; 0; 0; 0; 0; 0; 0; 0; 0; 0; 0; 0; 0; 0; 0; 0])%nat.
Proof.
  apply (ordered_by_length sample_cidrs 0 2
           (mkCIDR [10; 0; 0; 0] 8)
           (mkCIDR [0; 0; 0; 0; 0; 0; 0; 0; 0; 0; 0; 0; 0; 0; 0; 0] 0)).
  - exact sample_cidrs_ordered.
  - lia.
  - reflexivity.
  - reflexivity.
Defined.

Lemma StronglySorted_adjacent_NoDup (l : CIDRList) :
  StronglySorted not_after l ->
  (forall (n : nat) (a b : CIDR),
     l !! n = Some a -> l !! S n = Some b -> a <> b) ->
  NoDup l.
Proof.
  induction 1 as [|x l Hs IH Hx]; intros Hadj; constructor.
  - intros Hin. destruct l as [|y l']; [inversion Hin|].
    assert (x <> y) as Hxy by (apply (Hadj 0%nat); reflexivity).
    apply Hxy. apply (anti_symm not_after).
    + apply (Forall_inv Hx).
    + apply elem_of_cons in Hin as [->|Hin]; [contradiction|].
      apply StronglySorted_inv in Hs as [_ Hy].
      rewrite Forall_forall in Hy. apply Hy, Hin.
  - apply IH. intros n a b Ha Hb. apply (Hadj (S n)); assumption.
Qed.

(** X8. In a sorted list equal entries are neighbours: the list has no
    repeated entry exactly when no two adjacent entries are equal, which is
    what removing duplicates in one pass over the sorted list relies on. *)
Theorem ordered_NoDup_adjacent (l : CIDRList) :
  ordered l ->
  (NoDup l <->
   forall (i : Z) (a b : CIDR),
     index l i = Some a -> index l (i + 1) = Some b -> a <> b).
Proof.
  intros Ho. split.
  - intros Hnd i a b Ha Hb ->.
    apply index_Some_nat in Ha as [Hi Ha], Hb as [_ Hb].
    pose proof (NoDup_lookup l _ _ b Hnd Ha Hb). lia.
  - intros Hadj. apply StronglySorted_adjacent_NoDup.
    + apply ordered_StronglySorted, Ho.
    + intros n a b Ha Hb. apply (Hadj (Z.of_nat n)).
      * rewrite index_nat. exact Ha.
      * replace (Z.of_nat n + 1) with (Z.of_nat (S n)) by lia.
        rewrite index_nat. exact Hb.
Qed.

Lemma ordered_NoDup_adjacent_witness :
  NoDup sample_cidrs <->
  forall (i : Z) (a b : CIDR),
    index sample_cidrs i = Some a -> index sample_cidrs (i + 1) = Some b ->
    a <> b.
Proof. apply (ordered_NoDup_adjacent sample_cidrs sample_cidrs_ordered). Defined.

(** ** When [BuildCondition] succeeds and what it reports *)

Section BuildConditionOutcomes.
Context `{Matchers}.

Lemma of_list_nil {A B} (l : list A) (build : list A -> B) :
  of_list l build = [] <-> l = [].
Proof. destruct l; simpl; split; congruence. Qed.

Lemma prefer_nil {B} (preferred fallback : list B) :
  prefer preferred fallback = [] <-> preferred = [] /\ fallback = [].
Proof.
  destruct preferred; simpl; [tauto|]. split; [discriminate | intros []; discriminate].
Qed.

Lemma implied_nil (rr : RoutingRule.t) : implied rr = [] <-> unpopulated rr.
Proof.
  unfold implied, unpopulated.
  rewrite !app_nil, !prefer_nil, !of_list_nil.
  assert (match RoutingRule.PortList rr with
          | Some pl => [@Ok error _ (NewPortMatcher pl)]
          | None => []
          end = [] <-> RoutingRule.PortList rr = None) as ->
    by (destruct (RoutingRule.PortList rr); split; congruence).
  assert (match RoutingRule.PortRange rr with
          | Some r => [@Ok error _ (NewPortMatcher (PortList.mk [r]))]
          | None => []
          end = [] <-> RoutingRule.PortRange rr = None) as ->
    by (destruct (RoutingRule.PortRange rr); split; congruence).
  assert (match RoutingRule.NetworkList rr with
          | Some nl => [@Ok error _ (NewNetworkMatcher (NetworkList.Network nl))]
          | None => []
          end = [] <-> RoutingRule.NetworkList rr = None) as ->
    by (destruct (RoutingRule.NetworkList rr); split; congruence).
  assert (match RoutingRule.Attributes rr with
          | EmptyString => []
          | String _ _ => [NewAttributeMatcher (RoutingRule.Attributes rr)]
          end = [] <-> RoutingRule.Attributes rr = EmptyString) as ->
    by (destruct (RoutingRule.Attributes rr); split; congruence).
  tauto.
Qed.

Lemma collect_Ok_nil {A} (rs : list (result error A)) :
  collect rs = Ok [] <-> rs = [].
Proof. rewrite collect_Ok. simpl. reflexivity. Qed.

(** X9. [BuildCondition] succeeds exactly when some matcher field is
    populated and no submatcher constructor it has to call fails. *)
Theorem BuildCondition_succeeds_iff (rr : RoutingRule.t) :
  (exists cs : ConditionChan, BuildCondition rr = Ok cs) <->
  ~ unpopulated rr /\ forall e : error, ~ submatcher_fails rr e.
Proof.
  rewrite BuildCondition_collect, <- implied_nil.
  destruct (collect (implied rr)) as [cs|e] eqn:Ec.
  - assert (forall e, ~ submatcher_fails rr e) as Hno.
    { intros e He. apply implied_Err, elem_collect_Err in He as [e' He'].
      congruence. }
    destruct cs as [|c cs]; simpl.
    + apply collect_Ok_nil in Ec.
      split; [intros [cs [=]] | intros [Hne _]; contradiction].
    + split; [|eauto]. intros _. split; [|exact Hno].
      intros Hnil. apply collect_Ok_nil in Hnil. congruence.
  - split; [intros [cs [=]]|]. intros [_ Hno]. exfalso.
    apply (Hno e), implied_Err, collect_Err_elem, Ec.
Qed.



Lemma length_of_list {A B} (l : list A) (build : list A -> B) :
  (length (of_list l build) <= 1)%nat.
Proof. destruct l; simpl; lia. Qed.

Lemma length_prefer {B} (preferred fallback : list B) :
  (length preferred <= 1)%nat -> (length fallback <= 1)%nat ->
  (length (prefer preferred fallback) <= 1)%nat.
Proof. destruct preferred; simpl; lia. Qed.

Lemma length_implied (rr : RoutingRule.t) : (length (implied rr) <= 11)%nat.
Proof.
  unfold implied. rewrite !length_app.
  pose proof (length_of_list (RoutingRule.Domain rr) NewDomainMatcher).
  pose proof (length_of_list (RoutingRule.UserEmail rr)
                (fun l => @Ok error _ (NewUserMatcher l))).
  pose proof (length_of_list (RoutingRule.InboundTag rr)
                (fun l => @Ok error _ (NewInboundTagMatcher l))).
  pose proof (length_of_list (RoutingRule.CustomGeoip rr)
                (fun l => @Ok error _ (NewCustomGeoIPMatcher l false))).
  pose proof (length_of_list (RoutingRule.Protocol rr)
                (fun l => @Ok error _ (NewProtocolMatcher l))).
  pose proof (length_of_list (RoutingRule.Application rr)
                (fun l => @Ok error _ (NewApplicationMatcher l))).
  match goal with |- context [length (prefer ?a ?b)] =>
    assert (length (prefer a b) <= 1)%nat
      by (apply length_prefer;
          [destruct (RoutingRule.PortList rr) | destruct (RoutingRule.PortRange rr)];
          simpl; lia);
    generalize dependent (prefer a b); intros end.
  match goal with |- context [length (prefer ?a ?b)] =>
    assert (length (prefer a b) <= 1)%nat
      by (apply length_prefer;
          [apply length_of_list | destruct (RoutingRule.NetworkList rr); simpl; lia]);
    generalize dependent (prefer a b); intros end.
  match goal with |- context [length (prefer ?a ?b)] =>
    assert (length (prefer a b) <= 1)%nat
      by (apply length_prefer; apply length_of_list);
    generalize dependent (prefer a b); intros end.
  match goal with |- context [length (prefer ?a ?b)] =>
    assert (length (prefer a b) <= 1)%nat
      by (apply length_prefer; apply length_of_list);
    generalize dependent (prefer a b); intros end.
  destruct (RoutingRule.Attributes rr); simpl; lia.
Qed.

(** X11. A chain that [BuildCondition] returns holds at least one and at
    most eleven matchers: never more than one for each kind of field. *)
Theorem BuildCondition_length (rr : RoutingRule.t) (cs : ConditionChan) :
  BuildCondition rr = Ok cs -> (1 <= length cs <= 11)%nat.
Proof.
  rewrite BuildCondition_collect.
  destruct (collect (implied rr)) as [cs'|e] eqn:Ec; [|discriminate].
  apply collect_Ok in Ec. pose proof (length_implied rr) as Hl.
  rewrite Ec, length_map in Hl.
  destruct cs' as [|c cs']; simpl; [discriminate|].
  intros [= <-]. simpl in *. lia.
Qed.

(** What the parts of [implied] collect when a block builds or fails. *)

Lemma domain_builds_collect (rr : RoutingRule.t) :
  domain_builds rr ->
  (exists v, collect (of_list (RoutingRule.Domain rr) NewDomainMatcher) = Ok v)
  /\ forall e, reported rr e = e.
Proof.
  unfold reported.
  intros [Hnil|[m Hm]].
  - rewrite Hnil. simpl. eauto.
  - destruct (RoutingRule.Domain rr); simpl; [eauto|]. rewrite Hm. simpl. eauto.
Qed.

Lemma destination_builds_collect (rr : RoutingRule.t) :
  destination_builds rr ->
  exists v,
    collect
      (prefer
         (of_list (RoutingRule.Geoip rr)
            (fun l => NewMultiGeoIPMatcher l false))
         (of_list (RoutingRule.Cidr rr)
            (fun l => NewMultiGeoIPMatcher [GeoIP.mk EmptyString l] false)))
    = Ok v.
Proof.
  intros [[Hg Hc]|[[Hg [m Hm]]|(Hg & Hc & m & Hm)]].
  - rewrite Hg, Hc. simpl. eauto.
  - destruct (RoutingRule.Geoip rr); [contradiction|]. simpl. rewrite Hm.
    simpl. eauto.
  - rewrite Hg. destruct (RoutingRule.Cidr rr); [contradiction|]. simpl.
    rewrite Hm. simpl. eauto.
Qed.

Lemma source_builds_collect (rr : RoutingRule.t) :
  source_builds rr ->
  exists v,
    collect
      (prefer
         (of_list (RoutingRule.SourceGeoip rr)
            (fun l => NewMultiGeoIPMatcher l true))
         (of_list (RoutingRule.SourceCidr rr)
            (fun l => NewMultiGeoIPMatcher [GeoIP.mk EmptyString l] true)))
    = Ok v.
Proof.
  intros [[Hg Hc]|[[Hg [m Hm]]|(Hg & Hc & m & Hm)]].
  - rewrite Hg, Hc. simpl. eauto.
  - destruct (RoutingRule.SourceGeoip rr); [contradiction|]. simpl. rewrite Hm.
    simpl. eauto.
  - rewrite Hg. destruct (RoutingRule.SourceCidr rr); [contradiction|]. simpl.
    rewrite Hm. simpl. eauto.
Qed.

Lemma destination_fails_collect (rr : RoutingRule.t) (e : error) :
  destination_fails rr e ->
  collect
    (prefer
       (of_list (RoutingRule.Geoip rr)
          (fun l => NewMultiGeoIPMatcher l false))
       (of_list (RoutingRule.Cidr rr)
          (fun l => NewMultiGeoIPMatcher [GeoIP.mk EmptyString l] false)))
  = Err e.
Proof.
  intros [[Hg Hm]|(Hg & Hc & Hm)].
  - destruct (RoutingRule.Geoip rr); [contradiction|]. simpl. rewrite Hm.
    reflexivity.
  - rewrite Hg. destruct (RoutingRule.Cidr rr); [contradiction|]. simpl.
    rewrite Hm. reflexivity.
Qed.

Lemma source_fails_collect (rr : RoutingRule.t) (e : error) :
  source_fails rr e ->
  collect
    (prefer
       (of_list (RoutingRule.SourceGeoip rr)
          (fun l => NewMultiGeoIPMatcher l true))
       (of_list (RoutingRule.SourceCidr rr)
          (fun l => NewMultiGeoIPMatcher [GeoIP.mk EmptyString l] true)))
  = Err e.
Proof.
  intros [[Hg Hm]|(Hg & Hc & Hm)].
  - destruct (RoutingRule.SourceGeoip rr); [contradiction|]. simpl. rewrite Hm.
    reflexivity.
  - rewrite Hg. destruct (RoutingRule.SourceCidr rr); [contradiction|]. simpl.
    rewrite Hm. reflexivity.
Qed.

(** Running the error monad at results that are known. *)
Ltac run_binds :=
  repeat progress (rewrite ?bind_Ok, ?bind_Err; cbv beta iota).

(** The parts of [implied] that cannot fail, collected. *)
Ltac collect_pure_parts rr :=
  let E := fresh "E" in
  destruct (add_user_collect rr) as (? & E & _); rewrite E; clear E;
  destruct (add_inbound_tag_collect rr) as (? & E & _); rewrite E; clear E;
  destruct (add_port_collect rr) as (? & E & _); rewrite E; clear E;
  destruct (add_network_collect rr) as (? & E & _); rewrite E; clear E;
  run_binds.

(** X12. Failures are reported in the order of the blocks, and only the
    domain failure is wrapped.  When the domain block builds, a failure of the
    destination GeoIP matcher is returned as it is; when the destination
    block builds too, a failure of the source GeoIP matcher is; and when the
    source block builds as well, a failure of the attribute matcher is, even
    if later fields are populated. *)
Theorem BuildCondition_error_order (rr : RoutingRule.t) (e : error) :
  domain_builds rr ->
  (destination_fails rr e -> BuildCondition rr = Err e) /\
  (destination_builds rr -> source_fails rr e -> BuildCondition rr = Err e) /\
  (destination_builds rr -> source_builds rr ->
   RoutingRule.Attributes rr <> EmptyString ->
   NewAttributeMatcher (RoutingRule.Attributes rr) = Err e ->
   BuildCondition rr = Err e).
Proof.
  intros Hd. destruct (domain_builds_collect rr Hd) as [[vd Ed] Hrep].
  rewrite BuildCondition_collect. unfold implied. rewrite !collect_app, Ed.
  run_binds. collect_pure_parts rr.
  split; [|split].
  - intros Hf. rewrite (destination_fails_collect rr e Hf). run_binds.
    rewrite Hrep. reflexivity.
  - intros Hb Hf. destruct (destination_builds_collect rr Hb) as [v Ev].
    rewrite Ev. run_binds. rewrite (source_fails_collect rr e Hf). run_binds.
    rewrite Hrep. reflexivity.
  - intros Hb Hs Hne Ha.
    destruct (destination_builds_collect rr Hb) as [v Ev].
    destruct (source_builds_collect rr Hs) as [v' Ev'].
    rewrite Ev. run_binds. rewrite Ev'. run_binds.
    destruct (add_custom_geoip_collect rr) as (? & E1 & _); rewrite E1.
    run_binds.
    destruct (add_protocol_collect rr) as (? & E2 & _); rewrite E2.
    run_binds.
    assert (collect
              match RoutingRule.Attributes rr with
              | EmptyString => []
              | String _ _ => [NewAttributeMatcher (RoutingRule.Attributes rr)]
              end = Err e) as Ea.
    { destruct (RoutingRule.Attributes rr); [contradiction|].
      simpl. rewrite Ha. reflexivity. }
    rewrite Ea. run_binds. rewrite Hrep. reflexivity.
Qed.

(** X13. Each lower-precedence field is shorthand for the preferred one: a
    single port range builds what the one-element port list builds, a
    NetworkList with at least one network what the same networks given
    directly build, and raw CIDR entries, for destination and for source,
    what a single unnamed GeoIP list holding them builds. *)
Theorem BuildCondition_fallback_fields (rr : RoutingRule.t) :
  (forall r : PortRange.t,
     RoutingRule.PortList rr = None -> RoutingRule.PortRange rr = Some r ->
     BuildCondition (with_PortList rr (Some (PortList.mk [r])))
     = BuildCondition rr) /\
  (forall nl : NetworkList.t,
     RoutingRule.Networks rr = [] -> RoutingRule.NetworkList rr = Some nl ->
     NetworkList.Network nl <> [] ->
     BuildCondition (with_Networks rr (NetworkList.Network nl))
     = BuildCondition rr) /\
  (RoutingRule.Geoip rr = [] -> RoutingRule.Cidr rr <> [] ->
   BuildCondition
     (with_Geoip rr [GeoIP.mk EmptyString (RoutingRule.Cidr rr)])
   = BuildCondition rr) /\
  (RoutingRule.SourceGeoip rr = [] -> RoutingRule.SourceCidr rr <> [] ->
   BuildCondition
     (with_SourceGeoip rr [GeoIP.mk EmptyString (RoutingRule.SourceCidr rr)])
   = BuildCondition rr).
Proof.
  repeat split.
  - intros r Hl Hr. apply BuildCondition_same_implied; [reflexivity|].
    unfold implied, with_PortList; simpl. rewrite Hl, Hr. reflexivity.
  - intros nl Hn Hl Hne. apply BuildCondition_same_implied; [reflexivity|].
    unfold implied, with_Networks; simpl. rewrite Hn, Hl.
    destruct (NetworkList.Network nl); [contradiction | reflexivity].
  - intros Hg Hc. apply BuildCondition_same_implied; [reflexivity|].
    unfold implied, with_Geoip; simpl. rewrite Hg.
    destruct (RoutingRule.Cidr rr); [contradiction | reflexivity].
  - intros Hg Hc. apply BuildCondition_same_implied; [reflexivity|].
    unfold implied, with_SourceGeoip; simpl. rewrite Hg.
    destruct (RoutingRule.SourceCidr rr); [contradiction | reflexivity].
Qed.

End BuildConditionOutcomes.

(** The fully populated description builds, so some field of it is
    populated and none of its submatchers fails. *)
Lemma BuildCondition_succeeds_iff_witness :
  ~ unpopulated full_rule /\
  forall e : error, ~ @submatcher_fails sample_matchers full_rule e.
Proof.
  apply (proj1 (@BuildCondition_succeeds_iff sample_matchers full_rule)).
  eexists. reflexivity.
Defined.


(** The fully populated description gives eleven matchers. *)
Lemma BuildCondition_length_witness :
  exists cs : list sample_condition,
    @BuildCondition sample_matchers full_rule = Ok cs /\
    (1 <= length cs <= 11)%nat.
Proof.
  eexists. split; [reflexivity|].
  apply (@BuildCondition_length sample_matchers full_rule). reflexivity.
Defined.

(** The unknown country of the destination list is reported, not the
    malformed attribute script that comes later. *)
Lemma BuildCondition_error_order_witness :
  @BuildCondition sample_matchers bad_geoip_rule
  = Err (External "country not found").
Proof.
  apply (proj1 (@BuildCondition_error_order sample_matchers bad_geoip_rule
                  (External "country not found")
                  (or_intror (ex_intro _ _ eq_refl)))).
  left. split; [discriminate | reflexivity].
Defined.

(** The description that uses only the lower-precedence fields. *)
Lemma BuildCondition_fallback_fields_witness :
  @BuildCondition sample_matchers
    (with_PortList fallback_rule (Some (PortList.mk [PortRange.mk 1 1024])))
  = @BuildCondition sample_matchers fallback_rule /\
  @BuildCondition sample_matchers (with_Networks fallback_rule [2; 3])
  = @BuildCondition sample_matchers fallback_rule /\
  @BuildCondition sample_matchers
    (with_Geoip fallback_rule [GeoIP.mk EmptyString sample_cidrs])
  = @BuildCondition sample_matchers fallback_rule.
Proof.
  destruct (@BuildCondition_fallback_fields sample_matchers fallback_rule)
    as (Hp & Hn & Hg & _).
  split; [|split].
  - apply Hp; reflexivity.
  - apply (Hn (NetworkList.mk [2; 3])); [reflexivity | reflexivity | discriminate].
  - apply Hg; [reflexivity | discriminate].
Defined.

(** ** The conversions of [Build] *)




(** A duration of 9223372037 seconds wraps to a negative one. *)
Example Duration_times_wraps :
  Duration_times 9223372037 Second = -9223372036709551616.
Proof. reflexivity. Qed.

Section BuildIndependence.
Context {Manager LatencyStrategy : Type}.
Variable BalancingRule_Random BalancingRule_Latency : Z.

(** X15. For a kind other than Latency, [Build] does not consult the latency
    constructor and reads none of the tuning parameters: two descriptions
    with the same selectors and the same kind build the same balancer,
    whatever the constructor would do. *)
Theorem Build_not_latency
  (New1 New2 : Manager -> list string -> Z -> Z -> Z -> Z -> Z -> string ->
               string -> option LatencyStrategy)
  (br br' : BalancingRule.t) (ohm : Manager) :
  BalancingRule.BalancingStrategy br <> BalancingRule_Latency ->
  BalancingRule.OutboundSelector br' = BalancingRule.OutboundSelector br ->
  BalancingRule.BalancingStrategy br' = BalancingRule.BalancingStrategy br ->
  Build BalancingRule_Random BalancingRule_Latency New1 br ohm
  = Build BalancingRule_Random BalancingRule_Latency New2 br' ohm.
Proof.
  intros Hk Hs Hk'. unfold Build. rewrite Hs, Hk'.
  destruct (Z.eqb_spec (BalancingRule.BalancingStrategy br) BalancingRule_Latency);
    [contradiction | reflexivity].
Qed.

End BuildIndependence.

Lemma Build_not_latency_witness :
  Build 0 1 sample_NewLatencyStrategy random_rule ["out-a"%string]
  = Build 0 1 (fun _ _ _ _ _ _ _ _ _ => None)
      (BalancingRule.mk "other" ["out-"%string] 0 9 9 9 9 9 "x" "y")
      ["out-a"%string].
Proof.
  apply (Build_not_latency 0 1); [discriminate | reflexivity | reflexivity].
Defined.

(** ** Generated messages: [Reset] and the enumeration tables *)

(** X16. After [Reset] a message answers every getter as a nil message
    does: all fields are back at their zero values.  [Reset] on a nil
    receiver panics. *)
Theorem Reset_getters (TypedMessage : Type)
  (tc : Internet.TransportConfig.t TypedMessage)
  (sc : Internet.StreamConfig.t TypedMessage)
  (pc : Internet.ProxyConfig.t) (so : Internet.SocketConfig.t) :
  let tc' := Internet.TransportConfig.Reset (Some tc) in
  let sc' := Internet.StreamConfig.Reset (Some sc) in
  let pc' := Internet.ProxyConfig.Reset (Some pc) in
  let so' := Internet.SocketConfig.Reset (Some so) in
  (tc' <> None /\ sc' <> None /\ pc' <> None /\ so' <> None) /\
  (Internet.TransportConfig.GetProtocol tc'
     = Internet.TransportConfig.GetProtocol (TypedMessage := TypedMessage) None /\
   Internet.TransportConfig.GetProtocolName tc'
     = Internet.TransportConfig.GetProtocolName (TypedMessage := TypedMessage) None /\
   Internet.TransportConfig.GetSettings tc'
     = Internet.TransportConfig.GetSettings (TypedMessage := TypedMessage) None) /\
  (Internet.StreamConfig.GetProtocol sc'
     = Internet.StreamConfig.GetProtocol (TypedMessage := TypedMessage) None /\
   Internet.StreamConfig.GetProtocolName sc'
     = Internet.StreamConfig.GetProtocolName (TypedMessage := TypedMessage) None /\
   Internet.StreamConfig.GetTransportSettings sc'
     = Internet.StreamConfig.GetTransportSettings (TypedMessage := TypedMessage) None /\
   Internet.StreamConfig.GetSecurityType sc'
     = Internet.StreamConfig.GetSecurityType (TypedMessage := TypedMessage) None /\
   Internet.StreamConfig.GetSecuritySettings sc'
     = Internet.StreamConfig.GetSecuritySettings (TypedMessage := TypedMessage) None /\
   Internet.StreamConfig.GetSocketSettings sc'
     = Internet.StreamConfig.GetSocketSettings (TypedMessage := TypedMessage) None) /\
  Internet.ProxyConfig.GetTag pc' = Internet.ProxyConfig.GetTag None /\
  (Internet.SocketConfig.GetMark so' = Internet.SocketConfig.GetMark None /\
   Internet.SocketConfig.GetTfo so' = Internet.SocketConfig.GetTfo None /\
   Internet.SocketConfig.GetTproxy so' = Internet.SocketConfig.GetTproxy None /\
   Internet.SocketConfig.GetReceiveOriginalDestAddress so'
     = Internet.SocketConfig.GetReceiveOriginalDestAddress None /\
   Internet.SocketConfig.GetBindAddress so'
     = Internet.SocketConfig.GetBindAddress None /\
   Internet.SocketConfig.GetBindPort so'
     = Internet.SocketConfig.GetBindPort None /\
   Internet.SocketConfig.GetTos so' = Internet.SocketConfig.GetTos None) /\
  (Internet.TransportConfig.Reset (TypedMessage := TypedMessage) None = None /\
   Internet.StreamConfig.Reset (TypedMessage := TypedMessage) None = None /\
   Internet.ProxyConfig.Reset None = None /\
   Internet.SocketConfig.Reset None = None).
Proof. simpl. repeat split; discriminate. Qed.

(** A table given as a list of pairs with distinct keys holds exactly those
    pairs. *)
Lemma table_lookup `{Countable K} {V} (l : list (K * V)) (k : K) (v : V) :
  NoDup l.*1 ->
  (list_to_map l : gmap K V) !! k = Some v <-> (k, v) ∈ l.
Proof. intros Hnd. symmetry. apply elem_of_list_to_map. exact Hnd. Qed.

(** Two tables given by a list of pairs and by the swapped pairs, keys and
    values all distinct, are inverse to each other. *)
Lemma tables_inverse `{Countable K} `{Countable V} (l : list (K * V))
  (k : K) (v : V) :
  NoDup l.*1 -> NoDup l.*2 ->
  (list_to_map l : gmap K V) !! k = Some v <->
  (list_to_map (prod_swap <$> l) : gmap V K) !! v = Some k.
Proof.
  intros Hk Hv. rewrite !table_lookup.
  - rewrite list_elem_of_fmap. split.
    + intros Hin. exists (k, v). split; [reflexivity | exact Hin].
    + intros [[k' v'] [[= -> ->] Hin]]. exact Hin.
  - rewrite <- list_fmap_compose.
    replace (l.*2) with ((fst ∘ prod_swap) <$> l) in Hv; [exact Hv|].
    apply list_fmap_ext. intros _ [? ?] _. reflexivity.
  - exact Hk.
Qed.

Lemma NoDup_by_decide `{EqDecision A} (l : list A) :
  bool_decide (NoDup l) = true -> NoDup l.
Proof. apply bool_decide_eq_true_1. Qed.

(** X17. The two generated tables of each enumeration are inverse to each
    other: a number has the name [s] in [X_name] exactly when [X_value] gives
    that number for [s].  So no two numbers share a name and no name stands
    for two numbers. *)
Theorem enum_tables_inverse (n : Z) (s : string) :
  (Internet.TransportProtocol_name !! n = Some s <->
   Internet.TransportProtocol_value !! s = Some n) /\
  (Internet.SocketConfig_TCPFastOpenState_name !! n = Some s <->
   Internet.SocketConfig_TCPFastOpenState_value !! s = Some n) /\
  (Internet.SocketConfig_TProxyMode_name !! n = Some s <->
   Internet.SocketConfig_TProxyMode_value !! s = Some n).
Proof.
  unfold Internet.TransportProtocol_name, Internet.TransportProtocol_value,
    Internet.SocketConfig_TCPFastOpenState_name,
    Internet.SocketConfig_TCPFastOpenState_value,
    Internet.SocketConfig_TProxyMode_name,
    Internet.SocketConfig_TProxyMode_value.
  split; [|split];
    lazymatch goal with
    | |- list_to_map ?l !! _ = _ <-> _ => apply (tables_inverse l)
    end;
    apply NoDup_by_decide; vm_compute; reflexivity.
Qed.
